(** * Statistical equilibrium and superlevel populations

    A shallow embedding of [partition.c], [levels.c] and [superlevel.c]
    together with the properties of the specification that concern them.

    Conventions of the embedding.

    - A C [double] is an idealised real number (type [R]); rounding,
      infinities and NaN are not modelled.
    - A C [int] is an integer of [Z]; every index stays far from the limits
      of a 32-bit [int], whose overflow is undefined in C anyway.
    - The arrays reached through pointers ([xplasma->partition],
      [xplasma->density], [xplasma->levden], the output array handed to
      [get_boltzmann_populations]) live in one store of [double] arrays
      indexed by address, so that two structures may share an array.
    - The global tables and compile-time constants ([ion], [config], [ele],
      [geo], [plasmamain], [BOLTZMANN], ...) are read-only for the code
      embedded here and are gathered in one record of globals.
    - [exit] ends the run: a computation yields either [Ret v s] or
      [Exit status s], with [s] the state at that moment. *)

From Stdlib Require Import ZArith Reals List Bool Lia Lra.
Import ListNotations.

Local Open Scope Z_scope.

(** ** Loops *)

(** [for (i = lo; i < hi; i++) s = body i s;] *)
Fixpoint for_iter {S : Type} (k : nat) (i : Z) (body : Z -> S -> S) (s : S) : S :=
  match k with
  | O => s
  | Datatypes.S k' => for_iter k' (i + 1) body (body i s)
  end.

Definition for_loop {S : Type} (lo hi : Z) (body : Z -> S -> S) (s : S) : S :=
  for_iter (Z.to_nat (hi - lo)) lo body s.

(** [while (cond s) s = body s;], for a loop that a measure bounds: the
    caller supplies the bound as [fuel]. *)
Fixpoint while_iter {S : Type} (fuel : nat) (cond : S -> bool) (body : S -> S) (s : S) : S :=
  match fuel with
  | O => s
  | Datatypes.S fuel' => if cond s then while_iter fuel' cond body (body s) else s
  end.

(** Comparison of two doubles, as a boolean. *)
Definition Rltb (x y : R) : bool := if Rlt_dec x y then true else false.

(** ** Atomic data (atomic.h) *)

(** Modelled from the spec: the declaration of the elements of [ion[]]
    (atomic.h is not among the sources).  The fields are those that the
    three files read; the spec calls them the statistical weight, the
    counts of levels at full and at reduced detail, the index of the first
    level in each representation, and the flags. *)
Module Ion.
Record t := mk {
  g : R;                  (* ground state multiplicity *)
  firstlevel : Z;         (* index into config of the first "lte" level *)
  nlevels : Z;            (* number of "lte" levels *)
  first_nlte_level : Z;   (* index into config of the first "nlte" level *)
  first_levden : Z;       (* index into levden of the first "nlte" level *)
  nlte : Z;               (* number of "nlte" levels *)
  macro_info : Z;
  has_superlevel : Z
}.
End Ion.

(** Modelled from the spec: the declaration of the elements of [config[]]
    (atomic.h), a level with its owning ion, statistical weight and
    excitation energy. *)
Module Config.
Record t := mk {
  nion : Z;               (* the ion the level belongs to *)
  g : R;                  (* multiplicity of the level *)
  ex : R                  (* excitation energy of the level *)
}.
End Config.

(** Modelled from the spec: the declaration of the elements of [ele[]]
    (atomic.h), with the three fields that [get_lte_matom_populations]
    reads. *)
Module Ele.
Record t := mk {
  firstion : Z;
  nions : Z;
  abun : R
}.
End Ele.

(** ** Cells (python.h) *)

(** An array of doubles is known by its address. *)
Definition addr := positive.

(** Modelled from the spec: the declaration of a plasma cell (python.h is
    not among the sources), with the fields that [copy_plasma] copies and
    [levden].  [copy_plasma] assigns [x2->partition = x1->partition] and
    [x2->density = x1->density], which C accepts for pointers only: the
    arrays of a cell are reached through pointers. *)
Module Plasma.
Record t := mk {
  nwind : Z;
  nplasma : Z;
  ne : R;
  rho : R;
  vol : R;
  t_r : R;
  t_e : R;
  w : R;
  partition : addr;       (* double *partition *)
  density : addr;         (* double *density *)
  levden : addr           (* double *levden *)
}.
End Plasma.

(** Modelled from the spec: the declaration of the elements of
    [macromain[]] (python.h), with the three tables of the superlevels,
    indexed by level, by ion and by ion. *)
Module Macro.
Record t := mk {
  superlevel_lte_pops : Z -> R;
  superlevel_threshold : Z -> Z;
  superlevel_norm : Z -> R
}.
End Macro.

(** Modelled from the spec: the two fields of [geo] (python.h) that the
    three files read, the cycle counter and the macro-ionization mode. *)
Module Geo.
Record t := mk {
  wcycle : Z;
  macro_ioniz_mode : Z
}.
End Geo.

(** ** Modes of nebular_concentrations (maps.h) *)

Definition NEBULARMODE_TR : Z := 0.
Definition NEBULARMODE_TE : Z := 1.
Definition NEBULARMODE_ML93 : Z := 2.
Definition NEBULARMODE_NLTE_SIM : Z := 3.
Definition NEBULARMODE_LTE_GROUND : Z := 4.

(** [#define LTE_DEP_FRAC 2] of superlevel.c. *)
Definition LTE_DEP_FRAC : R := 2%R.

(** ** Program state *)

(** What [Error] and [Log] receive (log.h); the text of a message is
    represented by its origin and its arguments. *)
Inductive event : Type :=
| Error_partition_functions_mode (mode : Z)
| Error_levels_mode (mode : Z)
| Error_failed_to_choose (run_tot threshold : R) (superlevel_threshold : Z) (z : R)
| Error_not_in_superlevel (n : Z)
| Log_threshold (threshold ground upper_ground : Z).

Definition heap := addr -> Z -> R.

Record state := mk_state {
  mem : heap;                   (* the arrays of doubles *)
  macromain : Z -> Macro.t;     (* macromain[] *)
  log : list event              (* what was logged so far *)
}.

Definition upd_heap (h : heap) (a : addr) (i : Z) (v : R) : heap :=
  fun a' i' => if (Pos.eqb a' a && Z.eqb i' i)%bool then v else h a' i'.

Definition upd {A : Type} (f : Z -> A) (i : Z) (v : A) : Z -> A :=
  fun i' => if Z.eqb i' i then v else f i'.

Definition set_mem (s : state) (h : heap) : state :=
  mk_state h (macromain s) (log s).

Definition set_macro (s : state) (n : Z) (m : Macro.t) : state :=
  mk_state (mem s) (upd (macromain s) n m) (log s).

Definition add_log (s : state) (e : event) : state :=
  mk_state (mem s) (macromain s) (log s ++ [e]).

(** ** Computations that may end the run *)

Inductive result (A : Type) : Type :=
| Ret (v : A) (s : state)
| Exit (status : Z) (s : state).
Arguments Ret {A} v s.
Arguments Exit {A} status s.

Definition M (A : Type) : Type := state -> result A.

Definition ret {A : Type} (v : A) : M A := fun s => Ret v s.

Definition bind {A B : Type} (c : M A) (k : A -> M B) : M B :=
  fun s =>
    match c s with
    | Ret v s' => k v s'
    | Exit status s' => Exit status s'
    end.

Declare Scope prog_scope.
Delimit Scope prog_scope with prog.
Notation "x <- c1 ;; c2" := (bind c1 (fun x => c2))
  (at level 61, c1 at next level, right associativity) : prog_scope.
Notation "c1 ;; c2" := (bind c1 (fun _ => c2))
  (at level 61, right associativity) : prog_scope.
Local Open Scope prog_scope.

Definition exit {A : Type} (status : Z) : M A := fun s => Exit status s.

Definition Error (e : event) : M unit := fun s => Ret tt (add_log s e).

Definition Log (e : event) : M unit := fun s => Ret tt (add_log s e).

(** [a[i]] *)
Definition load (a : addr) (i : Z) : M R := fun s => Ret (mem s a i) s.

(** [a[i] = v] *)
Definition store (a : addr) (i : Z) (v : R) : M unit :=
  fun s => Ret tt (set_mem s (upd_heap (mem s) a i v)).

Definition get_macro (n : Z) : M Macro.t := fun s => Ret (macromain s n) s.

Definition get_mem : M heap := fun s => Ret (mem s) s.

(** [macromain[np].superlevel_lte_pops[n] = v] *)
Definition store_superlevel_lte_pops (np n : Z) (v : R) : M unit :=
  fun s =>
    let m := macromain s np in
    Ret tt (set_macro s np
              (Macro.mk (upd (Macro.superlevel_lte_pops m) n v)
                        (Macro.superlevel_threshold m)
                        (Macro.superlevel_norm m))).

(** [macromain[np].superlevel_threshold[nion] = v] *)
Definition store_superlevel_threshold (np nion : Z) (v : Z) : M unit :=
  fun s =>
    let m := macromain s np in
    Ret tt (set_macro s np
              (Macro.mk (Macro.superlevel_lte_pops m)
                        (upd (Macro.superlevel_threshold m) nion v)
                        (Macro.superlevel_norm m))).

(** [macromain[np].superlevel_norm[nion] = v] *)
Definition store_superlevel_norm (np nion : Z) (v : R) : M unit :=
  fun s =>
    let m := macromain s np in
    Ret tt (set_macro s np
              (Macro.mk (Macro.superlevel_lte_pops m)
                        (Macro.superlevel_threshold m)
                        (upd (Macro.superlevel_norm m) nion v))).

(** [for (i = lo; i < hi; i++) l = body i l;] with a body that has effects
    and local variables [l] that it updates. *)
Fixpoint forM_iter {L : Type} (k : nat) (i : Z) (body : Z -> L -> M L) (l : L) : M L :=
  match k with
  | O => ret l
  | Datatypes.S k' => l' <- body i l ;; forM_iter k' (i + 1) body l'
  end.

Definition forM {L : Type} (lo hi : Z) (body : Z -> L -> M L) (l : L) : M L :=
  forM_iter (Z.to_nat (hi - lo)) lo body l.

(** ** Globals *)

(** The tables, counters and constants that the three files read and never
    write.  The constants [BOLTZMANN], [rho2nh], [MAXRAND] and
    [LOWEST_SUPERLEVEL_THRESHOLD] are defined in headers that are not among
    the sources: their values are left open. *)
Record globals := mk_globals {
  ion : Z -> Ion.t;             (* ion[] *)
  config : Z -> Config.t;       (* config[] *)
  ele : Z -> Ele.t;             (* ele[] *)
  nions : Z;                    (* number of ions read *)
  NIONS : Z;                    (* size of ion[] *)
  NPLASMA : Z;                  (* number of cells *)
  plasmamain : Z -> Plasma.t;   (* plasmamain[] *)
  geo : Geo.t;
  BOLTZMANN : R;
  rho2nh : R;
  MAXRAND : R;
  LOWEST_SUPERLEVEL_THRESHOLD : Z;
  (* the ionization-balance solver, which is not part of these files: it
     may rewrite the structure it is handed and the arrays it points to *)
  saha : Plasma.t -> R -> R -> state -> Plasma.t * state
}.

Section Program.

Variable G : globals.

(** ** levels.c *)

(** [get_boltzmann_populations (levden_array, nion, w, t, z, nlevden)] *)
Definition get_boltzmann_populations
    (levden_array : addr) (nion : Z) (w t z : R) (nlevden : Z) : M Z :=
  let m := Ion.first_nlte_level (ion G nion) in
  let m_ground := m in
  let ground := (Config.g (config G m) / z)%R in
  store levden_array nlevden ground ;;
  let kt := (BOLTZMANN G * t)%R in
  forM 1 (Ion.nlte (ion G nion))
    (fun _ '(m, nlevden) =>
       let m := m + 1 in
       let nlevden := nlevden + 1 in
       store levden_array nlevden
         (ground * w * Config.g (config G m)
          * exp ((- Config.ex (config G m) + Config.ex (config G m_ground)) / kt) / z)%R ;;
       ret (m, nlevden))
    (m, nlevden) ;;
  ret 0.

(** [levels (xplasma, mode)] *)
Definition levels (xplasma : Plasma.t) (mode : Z) : M Z :=
  tw <- (if mode =? NEBULARMODE_TR then ret (Plasma.t_r xplasma, 1%R)
         else if mode =? NEBULARMODE_TE then ret (Plasma.t_e xplasma, 1%R)
         else if mode =? NEBULARMODE_ML93 then ret (Plasma.t_r xplasma, Plasma.w xplasma)
         else if mode =? 3 then ret (Plasma.t_e xplasma, 1%R)
         else if mode =? 4 then ret (Plasma.t_e xplasma, 0%R)
         else (Error (Error_levels_mode mode) ;; exit 0)) ;;
  let '(t, weight) := tw in
  forM 0 (nions G)
    (fun nion _ =>
       if Ion.nlte (ion G nion) >? 0 then
         if (Ion.macro_info (ion G nion) =? 0) || (Geo.macro_ioniz_mode (geo G) =? 0) then
           z <- load (Plasma.partition xplasma) nion ;;
           let nlevden := Ion.first_levden (ion G nion) in
           get_boltzmann_populations (Plasma.levden xplasma) nion weight t z nlevden ;;
           ret tt
         else ret tt
       else ret tt)
    tt ;;
  ret 0.

(** ** partition.c *)

(** [partition_functions (xplasma, mode)] *)
Definition partition_functions (xplasma : Plasma.t) (mode : Z) : M Z :=
  tw <- (if mode =? NEBULARMODE_TR then ret (Plasma.t_r xplasma, 1%R)
         else if mode =? NEBULARMODE_TE then ret (Plasma.t_e xplasma, 1%R)
         else if mode =? NEBULARMODE_ML93 then ret (Plasma.t_r xplasma, Plasma.w xplasma)
         else if mode =? NEBULARMODE_NLTE_SIM then ret (Plasma.t_e xplasma, 1%R)
         else if mode =? NEBULARMODE_LTE_GROUND then ret (Plasma.t_e xplasma, 0%R)
         else (Error (Error_partition_functions_mode mode) ;; exit 0)) ;;
  let '(t, weight) := tw in
  let kt := (BOLTZMANN G * t)%R in
  forM 0 (nions G)
    (fun nion _ =>
       let z :=
         if Ion.nlevels (ion G nion) >? 0 then
           let m := Ion.firstlevel (ion G nion) in
           let m_ground := m in
           let z := Config.g (config G m) in
           snd (for_loop 1 (Ion.nlevels (ion G nion))
                  (fun _ '(m, z) =>
                     let m := m + 1 in
                     (m, (z + weight * Config.g (config G m)
                              * exp ((- Config.ex (config G m)
                                      + Config.ex (config G m_ground)) / kt))%R))
                  (m, z))
         else if Ion.nlte (ion G nion) >? 0 then
           let m := Ion.first_nlte_level (ion G nion) in
           let m_ground := m in
           let z := Config.g (config G m) in
           snd (for_loop 1 (Ion.nlte (ion G nion))
                  (fun _ '(m, z) =>
                     let m := m + 1 in
                     (m, (z + weight * Config.g (config G m)
                              * exp ((- Config.ex (config G m)
                                      + Config.ex (config G m_ground)) / kt))%R))
                  (m, z))
         else Ion.g (ion G nion) in
       store (Plasma.partition xplasma) nion z)
    tt ;;
  levels xplasma mode ;;
  ret 0.

(** [partition_functions_2 (xplasma, xnion, temp, weight)] *)
Definition partition_functions_2 (xplasma : Plasma.t) (xnion : Z) (temp weight : R) : M Z :=
  let kt := (BOLTZMANN G * temp)%R in
  forM (xnion - 1) (xnion + 1)
    (fun nion _ =>
       let z :=
         if Ion.nlevels (ion G nion) >? 0 then
           let m := Ion.firstlevel (ion G nion) in
           let m_ground := m in
           let z := Config.g (config G m) in
           snd (for_loop 1 (Ion.nlevels (ion G nion))
                  (fun _ '(m, z) =>
                     let m := m + 1 in
                     (m, (z + weight * Config.g (config G m)
                              * exp ((- Config.ex (config G m)
                                      + Config.ex (config G m_ground)) / kt))%R))
                  (m, z))
         else if Ion.nlte (ion G nion) >? 0 then
           let m := Ion.first_nlte_level (ion G nion) in
           let m_ground := m in
           let z := Config.g (config G m) in
           snd (for_loop 1 (Ion.nlte (ion G nion))
                  (fun _ '(m, z) =>
                     let m := m + 1 in
                     (m, (z + weight * Config.g (config G m)
                              * exp ((- Config.ex (config G m)
                                      + Config.ex (config G m_ground)) / kt))%R))
                  (m, z))
         else Ion.g (ion G nion) in
       store (Plasma.partition xplasma) nion z)
    tt ;;
  ret 0.

(** [copy_plasma (x1, x2)]: the structure [x2] after the call. *)
Definition copy_plasma (x1 x2 : Plasma.t) : Plasma.t :=
  Plasma.mk
    (Plasma.nwind x1)
    (Plasma.nplasma x1)
    (Plasma.ne x1)
    (Plasma.rho x1)
    (Plasma.vol x1)
    (Plasma.t_r x1)
    (Plasma.t_e x1)
    (Plasma.w x1)
    (Plasma.partition x1)       (* the pointer is copied, the array is shared *)
    (Plasma.density x1)         (* the pointer is copied, the array is shared *)
    (Plasma.levden x2).         (* not assigned: x2 keeps what it held *)

(** [get_lte_matom_populations (levden_array, nelem, xplasma)].  The local
    structure [pdum] is not initialised in the source: what it holds at
    entry is an argument here. *)
Definition get_lte_matom_populations
    (pdum : Plasma.t) (levden_array : addr) (nelem : Z) (xplasma : Plasma.t) : M Z :=
  let nh := (Plasma.rho xplasma * rho2nh G)%R in
  let xdummy_lte := copy_plasma xplasma pdum in
  partition_functions xdummy_lte NEBULARMODE_TR ;;
  xdummy_lte <- (fun s =>
                   let '(x, s') := saha G xdummy_lte (Plasma.ne xdummy_lte)
                                     (Plasma.t_r xdummy_lte) s in
                   Ret x s') ;;
  forM (Ele.firstion (ele G nelem)) (Ele.firstion (ele G nelem) + Ele.nions (ele G nelem))
    (fun nion _ =>
       let nlevden_first := Ion.first_levden (ion G nion) in
       d <- load (Plasma.density xdummy_lte) nion ;;
       let ion_fraction := (d / (nh * Ele.abun (ele G nelem)))%R in
       z <- load (Plasma.partition xdummy_lte) nion ;;
       get_boltzmann_populations (Plasma.levden xdummy_lte) nion 1%R
         (Plasma.t_r xdummy_lte) z nlevden_first ;;
       forM nlevden_first (nlevden_first + Ion.nlte (ion G nion))
         (fun n _ =>
            v <- load levden_array n ;;
            store levden_array n (v * ion_fraction)%R)
         tt)
    tt ;;
  ret 0.

(** ** superlevel.c *)

(** [choose_superlevel_deactivation (xplasma, uplvl)] from the point where
    the draw [z = (rand () + 0.5) / MAXRAND] is known. *)
Definition choose_superlevel_deactivation_z (xplasma : Plasma.t) (uplvl : Z) (z : R) : M Z :=
  mplasma <- get_macro (Plasma.nplasma xplasma) ;;
  let nion := Config.nion (config G uplvl) in
  let run_tot := 0%R in
  let threshold := (z * Macro.superlevel_norm mplasma nion)%R in
  let n := Macro.superlevel_threshold mplasma nion in
  let ground := Ion.first_nlte_level (ion G nion) in
  let '(run_tot, n) :=
    while_iter (Z.to_nat (ground + Ion.nlte (ion G nion) - n))
      (fun '(run_tot, n) =>
         Rltb run_tot threshold && (n <? ground + Ion.nlte (ion G nion)))
      (fun '(run_tot, n) =>
         ((run_tot + Macro.superlevel_lte_pops mplasma n / Config.g (config G n))%R,
          n + 1))
      (run_tot, n) in
  let n := if n >? Macro.superlevel_threshold mplasma nion then n - 1 else n in
  (if n =? ground + Ion.nlte (ion G nion) + 1
   then Error (Error_failed_to_choose run_tot threshold
                 (Macro.superlevel_threshold mplasma nion) z)
   else ret tt) ;;
  (if n <? Macro.superlevel_threshold mplasma nion
   then Error (Error_not_in_superlevel n)
   else ret tt) ;;
  ret n.

(** [choose_superlevel_deactivation (xplasma, uplvl)], with [rand] what the
    call of [rand ()] returns. *)
Definition choose_superlevel_deactivation (xplasma : Plasma.t) (uplvl : Z) (rand : Z) : M Z :=
  choose_superlevel_deactivation_z xplasma uplvl ((IZR rand + 0.5) / MAXRAND G)%R.

(** [get_superlevel_threshold (xplasma, nion)] *)
Definition get_superlevel_threshold (xplasma : Plasma.t) (nion : Z) : M Z :=
  let ground := Ion.first_nlte_level (ion G nion) in
  let lastden := Ion.first_levden (ion G nion) + Ion.nlte (ion G nion) - 1 in
  let threshold := Ion.nlte (ion G nion) + ground - 1 in
  if Geo.wcycle (geo G) =? 0 then ret threshold
  else
    mplasma <- get_macro (Plasma.nplasma xplasma) ;;
    h <- get_mem ;;
    let levden := h (Plasma.levden xplasma) in
    let ground_den := levden (Ion.first_levden (ion G nion)) in
    let dep_coef :=
      (Macro.superlevel_lte_pops mplasma threshold / (levden lastden / ground_den))%R in
    let n := 0 in
    let '(threshold, n, dep_coef) :=
      while_iter (Z.to_nat (threshold - ground - LOWEST_SUPERLEVEL_THRESHOLD G))
        (fun '(threshold, n, dep_coef) =>
           Rltb dep_coef LTE_DEP_FRAC && Rltb (1 / LTE_DEP_FRAC)%R dep_coef
           && (threshold - ground >? LOWEST_SUPERLEVEL_THRESHOLD G))
        (fun '(threshold, n, dep_coef) =>
           let threshold := threshold - 1 in
           let n := n + 1 in
           (threshold, n,
            (Macro.superlevel_lte_pops mplasma threshold
             / (levden (lastden - n)%Z / ground_den))%R))
        (threshold, n, dep_coef) in
    Log (Log_threshold threshold ground (Ion.first_nlte_level (ion G (nion + 1)))) ;;
    let threshold := threshold + 1 in
    ret threshold.

(** [setup_superlevels ()] *)
Definition setup_superlevels : M Z :=
  forM 0 (NIONS G)
    (fun nion _ =>
       if Ion.has_superlevel (ion G nion) =? 1 then
         forM 0 (NPLASMA G)
           (fun nplasma _ =>
              let xplasma := plasmamain G nplasma in
              let te := Plasma.t_e xplasma in
              let kt := (BOLTZMANN G * te)%R in
              let ground := Ion.first_nlte_level (ion G nion) in
              store_superlevel_lte_pops nplasma ground 1%R ;;
              forM (ground + 1) (ground + Ion.nlte (ion G nion))
                (fun n _ =>
                   store_superlevel_lte_pops nplasma n
                     ((Config.g (config G n) / Config.g (config G ground))
                      * exp ((- Config.ex (config G n) + Config.ex (config G ground)) / kt))%R)
                tt ;;
              threshold <- get_superlevel_threshold xplasma nion ;;
              store_superlevel_threshold nplasma nion threshold ;;
              mplasma <- get_macro nplasma ;;
              forM (Macro.superlevel_threshold mplasma nion) (ground + Ion.nlte (ion G nion))
                (fun n _ =>
                   mplasma <- get_macro nplasma ;;
                   store_superlevel_norm nplasma nion
                     (Macro.superlevel_norm mplasma nion
                      + Macro.superlevel_lte_pops mplasma n / Config.g (config G n))%R)
                tt)
           tt
       else ret tt)
    tt ;;
  ret 0.

End Program.

(** ** The loops of partition.c and levels.c, named

    The value that one turn of the loop over the ions gives to [z], and the
    two loops themselves, for a temperature and a weight that are already
    chosen.  The lemmas [partition_functions_eq], [partition_functions_2_eq]
    and [levels_eq] below show that the functions above are these loops. *)

Definition partition_value (G : globals) (weight kt : R) (nion : Z) : R :=
  if Ion.nlevels (ion G nion) >? 0 then
    snd (for_loop 1 (Ion.nlevels (ion G nion))
           (fun _ '(m, z) =>
              (m + 1,
               (z + weight * Config.g (config G (m + 1))
                    * exp ((- Config.ex (config G (m + 1))
                            + Config.ex (config G (Ion.firstlevel (ion G nion)))) / kt))%R))
           (Ion.firstlevel (ion G nion),
            Config.g (config G (Ion.firstlevel (ion G nion)))))
  else if Ion.nlte (ion G nion) >? 0 then
    snd (for_loop 1 (Ion.nlte (ion G nion))
           (fun _ '(m, z) =>
              (m + 1,
               (z + weight * Config.g (config G (m + 1))
                    * exp ((- Config.ex (config G (m + 1))
                            + Config.ex (config G (Ion.first_nlte_level (ion G nion)))) / kt))%R))
           (Ion.first_nlte_level (ion G nion),
            Config.g (config G (Ion.first_nlte_level (ion G nion)))))
  else Ion.g (ion G nion).

Definition partition_loop (G : globals) (xplasma : Plasma.t) (lo hi : Z) (t weight : R) : M unit :=
  forM lo hi
    (fun nion _ =>
       store (Plasma.partition xplasma) nion (partition_value G weight (BOLTZMANN G * t) nion))
    tt.

(** Whether [levels] computes the populations of an ion. *)
Definition levels_computes (G : globals) (nion : Z) : bool :=
  (Ion.nlte (ion G nion) >? 0)
  && ((Ion.macro_info (ion G nion) =? 0) || (Geo.macro_ioniz_mode (geo G) =? 0)).

Definition levels_body (G : globals) (xplasma : Plasma.t) (t weight : R) (nion : Z) : M unit :=
  if levels_computes G nion then
    z <- load (Plasma.partition xplasma) nion ;;
    get_boltzmann_populations G (Plasma.levden xplasma) nion weight t z
      (Ion.first_levden (ion G nion)) ;;
    ret tt
  else ret tt.

Definition levels_loop (G : globals) (xplasma : Plasma.t) (t weight : R) : M unit :=
  forM 0 (nions G) (fun nion _ => levels_body G xplasma t weight nion) tt.

(** ** The loop of get_lte_matom_populations, named *)

(** The ionization-balance solver as a computation. *)
Definition call_saha (G : globals) (x : Plasma.t) (ne t : R) : M Plasma.t :=
  fun s => let '(x', s') := saha G x ne t s in Ret x' s'.

Definition matom_element_loop
    (G : globals) (levden_array : addr) (nelem : Z) (nh : R) (xdummy_lte : Plasma.t) : M unit :=
  forM (Ele.firstion (ele G nelem)) (Ele.firstion (ele G nelem) + Ele.nions (ele G nelem))
    (fun nion _ =>
       let nlevden_first := Ion.first_levden (ion G nion) in
       d <- load (Plasma.density xdummy_lte) nion ;;
       let ion_fraction := (d / (nh * Ele.abun (ele G nelem)))%R in
       z <- load (Plasma.partition xdummy_lte) nion ;;
       get_boltzmann_populations G (Plasma.levden xdummy_lte) nion 1%R
         (Plasma.t_r xdummy_lte) z nlevden_first ;;
       forM nlevden_first (nlevden_first + Ion.nlte (ion G nion))
         (fun n _ =>
            v <- load levden_array n ;;
            store levden_array n (v * ion_fraction)%R)
         tt)
    tt.

(** ** The body of setup_superlevels, named *)

(** What [setup_superlevels] does for one ion and one cell. *)
Definition setup_cell (G : globals) (nion nplasma : Z) : M unit :=
  let xplasma := plasmamain G nplasma in
  let te := Plasma.t_e xplasma in
  let kt := (BOLTZMANN G * te)%R in
  let ground := Ion.first_nlte_level (ion G nion) in
  store_superlevel_lte_pops nplasma ground 1%R ;;
  forM (ground + 1) (ground + Ion.nlte (ion G nion))
    (fun n _ =>
       store_superlevel_lte_pops nplasma n
         ((Config.g (config G n) / Config.g (config G ground))
          * exp ((- Config.ex (config G n) + Config.ex (config G ground)) / kt))%R)
    tt ;;
  threshold <- get_superlevel_threshold G xplasma nion ;;
  store_superlevel_threshold nplasma nion threshold ;;
  mplasma <- get_macro nplasma ;;
  forM (Macro.superlevel_threshold mplasma nion) (ground + Ion.nlte (ion G nion))
    (fun n _ =>
       mplasma <- get_macro nplasma ;;
       store_superlevel_norm nplasma nion
         (Macro.superlevel_norm mplasma nion
          + Macro.superlevel_lte_pops mplasma n / Config.g (config G n))%R)
    tt.

(** The sum of [lte_pop[n] / g_n] over the levels [lo <= n < hi]. *)
Definition ladder_sum (G : globals) (m : Macro.t) (lo hi : Z) : R :=
  for_loop lo hi
    (fun n acc => (acc + Macro.superlevel_lte_pops m n / Config.g (config G n))%R) 0%R.

(** ** Vocabulary of the properties *)

(** A computation that comes back from every state. *)
Definition returns {A : Type} (c : M A) : Prop :=
  forall s, exists v s', c s = Ret v s'.

(** The temperature and weight that a mode selects (the table shared by
    [partition_functions] and [levels]). *)
Definition mode_selects (xplasma : Plasma.t) (mode : Z) (t weight : R) : Prop :=
  (mode = 0 /\ t = Plasma.t_r xplasma /\ weight = 1%R) \/
  (mode = 1 /\ t = Plasma.t_e xplasma /\ weight = 1%R) \/
  (mode = 2 /\ t = Plasma.t_r xplasma /\ weight = Plasma.w xplasma) \/
  (mode = 3 /\ t = Plasma.t_e xplasma /\ weight = 1%R) \/
  (mode = 4 /\ t = Plasma.t_e xplasma /\ weight = 0%R).

(** The condition of the loop of [get_superlevel_threshold], on the
    variables [threshold], [n] and [dep_coef]. *)
Definition threshold_walk_cond (G : globals) (nion : Z) (st : Z * Z * R) : bool :=
  let '(threshold, n, dep_coef) := st in
  Rltb dep_coef LTE_DEP_FRAC && Rltb (1 / LTE_DEP_FRAC)%R dep_coef
  && (threshold - Ion.first_nlte_level (ion G nion) >? LOWEST_SUPERLEVEL_THRESHOLD G).

(** The departure coefficient that the walk sees first, at the topmost
    level of the ion. *)
Definition top_dep_coef (G : globals) (xplasma : Plasma.t) (nion : Z) (s : state) : R :=
  (Macro.superlevel_lte_pops (macromain s (Plasma.nplasma xplasma))
     (Ion.nlte (ion G nion) + Ion.first_nlte_level (ion G nion) - 1)%Z
   / (mem s (Plasma.levden xplasma)
        (Ion.first_levden (ion G nion) + Ion.nlte (ion G nion) - 1)%Z
      / mem s (Plasma.levden xplasma) (Ion.first_levden (ion G nion))))%R.

(** The LTE population of level [n] relative to the ground state of its
    ion, at the electron temperature of the cell. *)
Definition lte_pop (G : globals) (nion nplasma n : Z) : R :=
  (Config.g (config G n) / Config.g (config G (Ion.first_nlte_level (ion G nion)))
   * exp ((- Config.ex (config G n)
           + Config.ex (config G (Ion.first_nlte_level (ion G nion))))
          / (BOLTZMANN G * Plasma.t_e (plasmamain G nplasma))))%R.

(** The population that [get_boltzmann_populations] gives to level
    [first_nlte_level + n] of the ion, for [n >= 1]. *)
Definition boltzmann_population (G : globals) (nion : Z) (w t z : R) (n : Z) : R :=
  (Config.g (config G (Ion.first_nlte_level (ion G nion))) / z * w
   * Config.g (config G (Ion.first_nlte_level (ion G nion) + n))
   * exp ((- Config.ex (config G (Ion.first_nlte_level (ion G nion) + n))
           + Config.ex (config G (Ion.first_nlte_level (ion G nion))))
          / (BOLTZMANN G * t))
   / z)%R.

(** The entries of [levden] that belong to two ions do not overlap. *)
Definition levden_disjoint (G : globals) (nion j : Z) : Prop :=
  Ion.first_levden (ion G j) + Ion.nlte (ion G j) <= Ion.first_levden (ion G nion)
  \/ Ion.first_levden (ion G nion) + Ion.nlte (ion G nion) <= Ion.first_levden (ion G j).

(** The weight from which the partition sum of an ion starts. *)
Definition partition_ground_weight (G : globals) (nion : Z) : R :=
  if Ion.nlevels (ion G nion) >? 0 then Config.g (config G (Ion.firstlevel (ion G nion)))
  else if Ion.nlte (ion G nion) >? 0 then
         Config.g (config G (Ion.first_nlte_level (ion G nion)))
       else Ion.g (ion G nion).

(** The departure coefficient that [get_superlevel_threshold] computes for
    level [k] of the ion: its LTE population over the ratio, in the
    populations of the last cycle, of the level to the ground level. *)
Definition dep_coef_at (G : globals) (xplasma : Plasma.t) (nion : Z) (s : state) (k : Z) : R :=
  (Macro.superlevel_lte_pops (macromain s (Plasma.nplasma xplasma)) k
   / (mem s (Plasma.levden xplasma)
        (Ion.first_levden (ion G nion) + (k - Ion.first_nlte_level (ion G nion)))%Z
      / mem s (Plasma.levden xplasma) (Ion.first_levden (ion G nion))))%R.

(** Within a factor [LTE_DEP_FRAC] of LTE. *)
Definition in_band (d : R) : Prop := (1 / LTE_DEP_FRAC < d < LTE_DEP_FRAC)%R.

(** ** Test data *)

(** One ion with three levels, [g = 1, 3, 5] and [ex = 0, 1, 2], followed
    by a bare ion; one cell at unit temperature; [k = 1]. *)
Definition demo_ion (nion : Z) : Ion.t :=
  if nion =? 0 then Ion.mk 1 0 3 0 0 3 0 1
  else Ion.mk 2 0 0 0 0 0 0 0.

Definition demo_config (n : Z) : Config.t :=
  if n =? 0 then Config.mk 0 1 0
  else if n =? 1 then Config.mk 0 3 1
  else if n =? 2 then Config.mk 0 5 2
  else Config.mk 1 1 0.

Definition demo_cell : Plasma.t :=
  Plasma.mk 0 0 1 1 1 1 1 1 1%positive 2%positive 3%positive.

Definition demo_saha (x : Plasma.t) (ne t : R) (s : state) : Plasma.t * state := (x, s).

Definition demo_globals_floor (wcycle lowest : Z) : globals :=
  mk_globals demo_ion demo_config (fun _ => Ele.mk 0 2 1) 2 2 1
    (fun _ => demo_cell) (Geo.mk wcycle 0) 1 1 1 lowest demo_saha.

Definition demo_globals (wcycle : Z) : globals := demo_globals_floor wcycle 1.

(** The same atomic data with a floor as large as the ladder of ion 0. *)
Definition demo_globals_short : globals := demo_globals_floor 0 3.

(** A later cycle: the LTE ladder of ion 0 is flat and the populations of
    the last cycle put four times the ground population in the top level. *)
Definition demo_macro_later : Macro.t :=
  Macro.mk (fun _ => 1%R) (fun _ => 0) (fun _ => 0%R).

Definition demo_state_later : state :=
  mk_state (fun a i => if (a =? 3)%positive then
                         if i =? 0 then 1%R else if i =? 2 then 4%R else 0%R
                       else 0%R)
           (fun _ => demo_macro_later) [].

(** A ladder for sampling: ion 0 has six reduced levels of weight 1, the
    superlevel starts at level 2 and its four levels have
    [lte_pop / g = 0.5, 0.3, 0.15, 0.05], with norm 1. *)
Definition ladder_ion (nion : Z) : Ion.t := Ion.mk 1 0 6 0 0 6 1 1.

Definition ladder_config (n : Z) : Config.t := Config.mk 0 1 0.

Definition ladder_globals : globals :=
  mk_globals ladder_ion ladder_config (fun _ => Ele.mk 0 1 1) 1 1 1
    (fun _ => demo_cell) (Geo.mk 1 1) 1 1 1 1 demo_saha.

Definition ladder_macro : Macro.t :=
  Macro.mk
    (fun n => if n =? 2 then 0.5%R else if n =? 3 then 0.3%R
              else if n =? 4 then 0.15%R else if n =? 5 then 0.05%R else 1%R)
    (fun _ => 2)
    (fun _ => 1%R).

Definition ladder_state : state :=
  mk_state (fun _ _ => 0%R) (fun _ => ladder_macro) [].

(** An ion whose "lte" ladder and "nlte" ladder start at different
    configurations, of weights 2 and 4. *)
Definition split_ion (nion : Z) : Ion.t := Ion.mk 2 0 1 1 0 1 0 0.

Definition split_config (n : Z) : Config.t :=
  if n =? 0 then Config.mk 0 2 0 else Config.mk 0 4 0.

Definition split_globals : globals :=
  mk_globals split_ion split_config (fun _ => Ele.mk 0 1 1) 1 1 1
    (fun _ => demo_cell) (Geo.mk 0 0) 1 1 1 1 demo_saha.

(** The partition function of ion 0 of the test data at unit temperature
    and weight. *)
Definition demo_Z : R := (1 + 3 * exp (-1) + 5 * exp (-2))%R.

(** Level populations of a later cycle, held in the array [levden] of
    the test cell. *)
Definition demo_state_with (s : state) (levden : Z -> R) : state :=
  set_mem s (fun a i => if (a =? Plasma.levden demo_cell)%positive then levden i
                        else mem s a i).

(** What the local structure of [get_lte_matom_populations] may hold at
    entry: here its pointers lead to arrays that nothing else uses. *)
Definition demo_pdum : Plasma.t :=
  Plasma.mk 0 0 0 0 0 0 0 0 7%positive 8%positive 9%positive.

(** The array that receives the populations. *)
Definition demo_out : addr := 4%positive.

(** A state of the test cell whose partition array holds 7 for the bare
    ion 1 (whose partition function is its weight, 2). *)
Definition demo_state_live : state :=
  mk_state (fun a i => if (a =? Plasma.partition demo_cell)%positive && (i =? 1)
                       then 7%R else 0%R)
           (fun _ => demo_macro_later) [].

Definition demo_macro : Macro.t :=
  Macro.mk (fun _ => 0%R) (fun _ => 0) (fun _ => 0%R).

Definition demo_state : state :=
  mk_state (fun _ _ => 0%R) (fun _ => demo_macro) [].

(** ** Running a computation *)

Lemma bind_Ret {A B : Type} (c : M A) (k : A -> M B) s v s' :
  c s = Ret v s' -> bind c k s = k v s'.
Proof. intros H; unfold bind; now rewrite H. Qed.

Lemma returns_ret {A : Type} (v : A) : returns (ret v).
Proof. intros s; now exists v, s. Qed.

Lemma returns_bind {A B : Type} (c : M A) (k : A -> M B) :
  returns c -> (forall v, returns (k v)) -> returns (bind c k).
Proof.
  intros Hc Hk s. destruct (Hc s) as (v & s1 & E).
  rewrite (bind_Ret _ _ _ _ _ E). apply Hk.
Qed.

Lemma returns_store a i v : returns (store a i v).
Proof. intros s; now eexists _, _. Qed.

Lemma returns_load a i : returns (load a i).
Proof. intros s; now eexists _, _. Qed.

Lemma returns_forM_iter {L : Type} (body : Z -> L -> M L) :
  (forall i l, returns (body i l)) ->
  forall k i l, returns (forM_iter k i body l).
Proof.
  intros Hb k; induction k as [|k IH]; intros i l; cbn [forM_iter].
  - apply returns_ret.
  - apply returns_bind; [apply Hb | intros l'; apply IH].
Qed.

Lemma returns_forM {L : Type} lo hi (body : Z -> L -> M L) l :
  (forall i l, returns (body i l)) -> returns (forM lo hi body l).
Proof. intros Hb; unfold forM; now apply returns_forM_iter. Qed.

Create HintDb returns.
#[local] Hint Resolve returns_ret returns_store returns_load : returns.

Lemma returns_get_boltzmann_populations G levden_array nion w t z nlevden :
  returns (get_boltzmann_populations G levden_array nion w t z nlevden).
Proof.
  unfold get_boltzmann_populations.
  apply returns_bind; [auto with returns|intros _].
  apply returns_bind; [|intros; auto with returns].
  apply returns_forM. intros i [m n].
  apply returns_bind; intros; auto with returns.
Qed.

Lemma returns_levels_loop G xplasma t weight :
  returns (levels_loop G xplasma t weight).
Proof.
  apply returns_forM. intros nion []. unfold levels_body.
  destruct (levels_computes G nion); [|auto with returns].
  apply returns_bind; [auto with returns|intros z].
  apply returns_bind; [apply returns_get_boltzmann_populations|intros; auto with returns].
Qed.

Lemma returns_partition_loop G xplasma lo hi t weight :
  returns (partition_loop G xplasma lo hi t weight).
Proof. apply returns_forM. intros nion []. auto with returns. Qed.

Lemma mode_selects_total xplasma mode :
  0 <= mode <= 4 -> exists t weight, mode_selects xplasma mode t weight.
Proof.
  intros H. unfold mode_selects.
  assert (mode = 0 \/ mode = 1 \/ mode = 2 \/ mode = 3 \/ mode = 4) as Hm by lia.
  destruct Hm as [E|[E|[E|[E|E]]]]; subst mode; eexists _, _;
    [ left | right; left | do 2 right; left | do 3 right; left | do 4 right ];
    repeat split.
Qed.

Lemma forM_iter_ext {L : Type} (b1 b2 : Z -> L -> M L) :
  (forall i l s, b1 i l s = b2 i l s) ->
  forall k i l s, forM_iter k i b1 l s = forM_iter k i b2 l s.
Proof.
  intros Hb k; induction k as [|k IH]; intros i l s; cbn [forM_iter]; [reflexivity|].
  unfold bind. rewrite Hb. destruct (b2 i l s); [apply IH | reflexivity].
Qed.

Lemma levels_eq G xplasma mode t weight s :
  mode_selects xplasma mode t weight ->
  levels G xplasma mode s = (levels_loop G xplasma t weight ;; ret 0) s.
Proof.
  intros [H|[H|[H|[H|H]]]]; destruct H as (-> & -> & ->);
    unfold levels; cbn -[forM]; unfold bind at 1, ret at 1;
    unfold levels_loop, bind at 1 3; unfold forM;
    (erewrite forM_iter_ext; [reflexivity|]);
    intros i [] s0; unfold levels_body, levels_computes;
    destruct (_ >? _); cbn [andb]; try reflexivity;
    destruct (_ || _); reflexivity.
Qed.

Lemma partition_functions_eq G xplasma mode t weight s :
  mode_selects xplasma mode t weight ->
  partition_functions G xplasma mode s
  = (partition_loop G xplasma 0 (nions G) t weight ;; levels G xplasma mode ;; ret 0) s.
Proof.
  intros [H|[H|[H|[H|H]]]]; destruct H as (-> & -> & ->); reflexivity.
Qed.

Lemma setup_superlevels_eq G :
  setup_superlevels G
  = (forM 0 (NIONS G)
       (fun nion _ =>
          if Ion.has_superlevel (ion G nion) =? 1 then
            forM 0 (NPLASMA G) (fun nplasma _ => setup_cell G nion nplasma) tt
          else ret tt)
       tt ;;
     ret 0).
Proof. reflexivity. Qed.

Lemma partition_functions_2_eq G xplasma xnion temp weight :
  partition_functions_2 G xplasma xnion temp weight
  = (partition_loop G xplasma (xnion - 1) (xnion + 1) temp weight ;; ret 0).
Proof. reflexivity. Qed.

(** ** For loops *)

Lemma for_iter_snoc {S : Type} (body : Z -> S -> S) k :
  forall i s,
    for_iter (Datatypes.S k) i body s = body (i + Z.of_nat k) (for_iter k i body s).
Proof.
  induction k as [|k IH]; intros i s.
  - cbn. now rewrite Z.add_0_r.
  - change (for_iter (Datatypes.S (Datatypes.S k)) i body s)
      with (for_iter (Datatypes.S k) (i + 1) body (body i s)).
    rewrite IH. cbn [for_iter]. f_equal. lia.
Qed.

Lemma for_loop_snoc {S : Type} (body : Z -> S -> S) lo i s :
  lo <= i -> for_loop lo (i + 1) body s = body i (for_loop lo i body s).
Proof.
  intros H. unfold for_loop.
  replace (Z.to_nat (i + 1 - lo)) with (Datatypes.S (Z.to_nat (i - lo))) by lia.
  rewrite for_iter_snoc. f_equal. lia.
Qed.

Lemma for_loop_empty {S : Type} (body : Z -> S -> S) lo hi s :
  hi <= lo -> for_loop lo hi body s = s.
Proof.
  intros H. unfold for_loop. now replace (Z.to_nat (hi - lo)) with O by lia.
Qed.

Lemma forM_empty {L : Type} (body : Z -> L -> M L) lo hi l s :
  hi <= lo -> forM lo hi body l s = Ret l s.
Proof.
  intros H. unfold forM. now replace (Z.to_nat (hi - lo)) with O by lia.
Qed.

Lemma forM_iter_inv {L : Type} (I : Z -> L -> state -> Prop) (body : Z -> L -> M L) hi :
  (forall i l s, i < hi -> I i l s ->
                 exists l' s', body i l s = Ret l' s' /\ I (i + 1) l' s') ->
  forall k i l s,
    i + Z.of_nat k = hi -> I i l s ->
    exists l' s', forM_iter k i body l s = Ret l' s' /\ I hi l' s'.
Proof.
  intros Hb k; induction k as [|k IH]; intros i l s Hk HI; cbn [forM_iter].
  - exists l, s. split; [reflexivity|]. now replace hi with i by lia.
  - destruct (Hb i l s ltac:(lia) HI) as (l1 & s1 & E & HI1).
    rewrite (bind_Ret _ _ _ _ _ E). apply IH; [lia | exact HI1].
Qed.

(** A loop invariant [I], indexed by the loop counter; a loop with
    [hi <= lo] does nothing. *)
Lemma forM_inv {L : Type} (I : Z -> L -> state -> Prop) (body : Z -> L -> M L) lo hi l s :
  (forall i l s, lo <= i < hi -> I i l s ->
                 exists l' s', body i l s = Ret l' s' /\ I (i + 1) l' s') ->
  I lo l s ->
  exists l' s', forM lo hi body l s = Ret l' s' /\ I (Z.max lo hi) l' s'.
Proof.
  intros Hb HI. destruct (Z.le_gt_cases lo hi) as [Hle|Hgt].
  - rewrite Z.max_r by lia. unfold forM.
    destruct (forM_iter_inv (fun i l s => lo <= i /\ I i l s) body hi) with
      (k := Z.to_nat (hi - lo)) (i := lo) (l := l) (s := s)
      as (l' & s' & E & _ & HI'); [| lia | split; [lia | exact HI] |].
    + intros i l0 s0 Hi [Hlo HI0].
      destruct (Hb i l0 s0 ltac:(lia) HI0) as (l1 & s1 & E & HI1).
      exists l1, s1. repeat split; [exact E | lia | exact HI1].
    + now exists l', s'.
  - rewrite Z.max_l by lia. exists l, s. split; [apply forM_empty; lia | exact HI].
Qed.

Lemma upd_same {A : Type} (f : Z -> A) i v : upd f i v i = v.
Proof. unfold upd. now rewrite Z.eqb_refl. Qed.

Lemma upd_other {A : Type} (f : Z -> A) i j v : j <> i -> upd f i v j = f j.
Proof. intros H. unfold upd. apply Z.eqb_neq in H. now rewrite H. Qed.

Lemma upd_heap_same h a i v : upd_heap h a i v a i = v.
Proof. unfold upd_heap. now rewrite Pos.eqb_refl, Z.eqb_refl. Qed.

(** ** Unknown modes *)

Lemma levels_valid_mode G xplasma mode s :
  0 <= mode <= 4 -> exists s', levels G xplasma mode s = Ret 0 s'.
Proof.
  intros H. destruct (mode_selects_total xplasma mode H) as (t & weight & Hsel).
  rewrite (levels_eq _ _ _ _ _ _ Hsel).
  destruct (returns_levels_loop G xplasma t weight s) as ([] & s' & E).
  exists s'. now rewrite (bind_Ret _ _ _ _ _ E).
Qed.

Lemma partition_functions_valid_mode G xplasma mode s :
  0 <= mode <= 4 -> exists s', partition_functions G xplasma mode s = Ret 0 s'.
Proof.
  intros H. destruct (mode_selects_total xplasma mode H) as (t & weight & Hsel).
  rewrite (partition_functions_eq _ _ _ _ _ _ Hsel).
  destruct (returns_partition_loop G xplasma 0 (nions G) t weight s) as ([] & s1 & E1).
  rewrite (bind_Ret _ _ _ _ _ E1).
  destruct (levels_valid_mode G xplasma mode s1 H) as (s2 & E2).
  exists s2. now rewrite (bind_Ret _ _ _ _ _ E2).
Qed.

Lemma unknown_mode_tests mode :
  ~ 0 <= mode <= 4 ->
  (mode =? 0) = false /\ (mode =? 1) = false /\ (mode =? 2) = false
  /\ (mode =? 3) = false /\ (mode =? 4) = false.
Proof. intros H; repeat split; apply Z.eqb_neq; lia. Qed.

(** C10.  For a mode outside 0..4, [partition_functions] and [levels] log an
    error and end the run with the arrays of the store as they were at
    entry (nothing has been written); for a mode in 0..4 both return. *)
Theorem unknown_mode_is_fatal G xplasma mode s :
  (~ 0 <= mode <= 4 ->
   (exists s', partition_functions G xplasma mode s = Exit 0 s'
               /\ mem s' = mem s
               /\ log s' = log s ++ [Error_partition_functions_mode mode])
   /\ (exists s', levels G xplasma mode s = Exit 0 s'
                  /\ mem s' = mem s
                  /\ log s' = log s ++ [Error_levels_mode mode]))
  /\ (0 <= mode <= 4 ->
      (exists s', partition_functions G xplasma mode s = Ret 0 s')
      /\ (exists s', levels G xplasma mode s = Ret 0 s')).
Proof.
  split.
  - intros H. destruct (unknown_mode_tests mode H) as (E0 & E1 & E2 & E3 & E4).
    split.
    + exists (add_log s (Error_partition_functions_mode mode)).
      unfold partition_functions, NEBULARMODE_TR, NEBULARMODE_TE, NEBULARMODE_ML93,
        NEBULARMODE_NLTE_SIM, NEBULARMODE_LTE_GROUND.
      rewrite E0, E1, E2, E3, E4. repeat split.
    + exists (add_log s (Error_levels_mode mode)).
      unfold levels, NEBULARMODE_TR, NEBULARMODE_TE, NEBULARMODE_ML93.
      rewrite E0, E1, E2, E3, E4. repeat split.
  - intros H. split.
    + now apply partition_functions_valid_mode.
    + now apply levels_valid_mode.
Qed.

Lemma unknown_mode_is_fatal_witness :
  (exists s',
     partition_functions (demo_globals 0) demo_cell 5 demo_state = Exit 0 s'
     /\ mem s' = mem demo_state
     /\ log s' = log demo_state ++ [Error_partition_functions_mode 5])
  /\ (exists s', levels (demo_globals 0) demo_cell 2 demo_state = Ret 0 s').
Proof.
  split.
  - exact (proj1 (proj1 (unknown_mode_is_fatal (demo_globals 0) demo_cell 5 demo_state)
                    ltac:(lia))).
  - exact (proj2 (proj2 (unknown_mode_is_fatal (demo_globals 0) demo_cell 2 demo_state)
                    ltac:(lia))).
Defined.

(** ** While loops *)

Lemma while_iter_inv {S : Type} (I : S -> Prop) (cond : S -> bool) (body : S -> S) :
  (forall s, I s -> cond s = true -> I (body s)) ->
  forall fuel s, I s -> I (while_iter fuel cond body s).
Proof.
  intros Hstep fuel; induction fuel as [|fuel IH]; intros s Hs; cbn [while_iter]; [easy|].
  destruct (cond s) eqn:E; [apply IH; now apply Hstep | easy].
Qed.

(** With as much fuel as the measure [mu] allows turns, the loop stops
    because its condition fails, not because the fuel is spent. *)
Lemma while_iter_exit {S : Type} (mu : S -> Z) (cond : S -> bool) (body : S -> S) :
  (forall s, cond s = true -> 0 < mu s /\ mu (body s) <= mu s - 1) ->
  forall fuel s, mu s <= Z.of_nat fuel -> cond (while_iter fuel cond body s) = false.
Proof.
  intros Hmu fuel; induction fuel as [|fuel IH]; intros s Hs; cbn [while_iter].
  - destruct (cond s) eqn:E; [|reflexivity]. destruct (Hmu s E). lia.
  - destruct (cond s) eqn:E; [|exact E]. destruct (Hmu s E). apply IH. lia.
Qed.

Lemma while_iter_false {S : Type} (cond : S -> bool) (body : S -> S) fuel s :
  cond s = false -> while_iter fuel cond body s = s.
Proof. intros H; destruct fuel; cbn [while_iter]; [reflexivity | now rewrite H]. Qed.

Lemma while_iter_true {S : Type} (cond : S -> bool) (body : S -> S) fuel s :
  cond s = true ->
  while_iter (Datatypes.S fuel) cond body s = while_iter fuel cond body (body s).
Proof. intros H; cbn [while_iter]; now rewrite H. Qed.

Lemma Rltb_true x y : Rltb x y = true <-> (x < y)%R.
Proof. unfold Rltb; destruct (Rlt_dec x y); split; intros; easy. Qed.

Lemma Rltb_false x y : Rltb x y = false <-> ~ (x < y)%R.
Proof. unfold Rltb; destruct (Rlt_dec x y); split; intros; easy. Qed.

(** ** The superlevel threshold *)

Lemma threshold_on_first_cycle G xplasma nion s :
  Geo.wcycle (geo G) = 0 ->
  get_superlevel_threshold G xplasma nion s
  = Ret (Ion.first_nlte_level (ion G nion) + Ion.nlte (ion G nion) - 1) s.
Proof.
  intros H. unfold get_superlevel_threshold. rewrite H. cbn [Z.eqb].
  unfold ret. f_equal. lia.
Qed.

(** C9.  On the first cycle ([geo.wcycle] is zero) the threshold is the
    topmost reduced level of the ion, and nothing else happens. *)
Theorem first_cycle_threshold_is_top G xplasma nion s :
  Geo.wcycle (geo G) = 0 ->
  get_superlevel_threshold G xplasma nion s
  = Ret (Ion.first_nlte_level (ion G nion) + Ion.nlte (ion G nion) - 1) s.
Proof.
  intros H. unfold get_superlevel_threshold. rewrite H. cbn [Z.eqb].
  unfold ret. f_equal. lia.
Qed.

Lemma first_cycle_threshold_is_top_witness :
  Geo.wcycle (geo (demo_globals 0)) = 0
  /\ get_superlevel_threshold (demo_globals 0) demo_cell 0 demo_state = Ret 2 demo_state.
Proof.
  split; [reflexivity|].
  exact (first_cycle_threshold_is_top (demo_globals 0) demo_cell 0 demo_state eq_refl).
Defined.

(** The loop of [get_superlevel_threshold] ends because its condition
    fails: the fuel it is given is never what stops it. *)
Lemma threshold_walk_fuel_suffices G nion (body : Z * Z * R -> Z * Z * R) st :
  (forall t n d, fst (fst (body (t, n, d))) = t - 1) ->
  threshold_walk_cond G nion
    (while_iter
       (Z.to_nat (fst (fst st) - Ion.first_nlte_level (ion G nion)
                  - LOWEST_SUPERLEVEL_THRESHOLD G))
       (threshold_walk_cond G nion) body st) = false.
Proof.
  intros Hb.
  apply (while_iter_exit
           (fun st => fst (fst st) - Ion.first_nlte_level (ion G nion)
                      - LOWEST_SUPERLEVEL_THRESHOLD G)).
  - intros [[t n] d] Hc. rewrite Hb. cbn [fst] in *.
    unfold threshold_walk_cond in Hc.
    apply andb_prop in Hc as [_ Hc]. apply Z.gtb_lt in Hc. lia.
  - lia.
Qed.

(** Where the threshold ends up on a later cycle: the walk never takes it
    below [ground + LOWEST_SUPERLEVEL_THRESHOLD], and one is added after
    the walk. *)
Lemma later_cycle_threshold G xplasma nion s :
  Geo.wcycle (geo G) <> 0 ->
  exists threshold s',
    get_superlevel_threshold G xplasma nion s = Ret threshold s'
    /\ mem s' = mem s /\ macromain s' = macromain s
    /\ threshold <= Ion.first_nlte_level (ion G nion) + Ion.nlte (ion G nion)
    /\ (LOWEST_SUPERLEVEL_THRESHOLD G < Ion.nlte (ion G nion) ->
        Ion.first_nlte_level (ion G nion) + LOWEST_SUPERLEVEL_THRESHOLD G < threshold)
    /\ (~ (1 / LTE_DEP_FRAC < top_dep_coef G xplasma nion s < LTE_DEP_FRAC)%R ->
        threshold = Ion.first_nlte_level (ion G nion) + Ion.nlte (ion G nion)
        /\ log s' = log s ++ [Log_threshold
                                (Ion.first_nlte_level (ion G nion) + Ion.nlte (ion G nion) - 1)
                                (Ion.first_nlte_level (ion G nion))
                                (Ion.first_nlte_level (ion G (nion + 1)))]).
Proof.
  intros Hw. unfold get_superlevel_threshold.
  apply Z.eqb_neq in Hw. rewrite Hw.
  unfold bind, get_macro, get_mem, Log, ret.
  set (ground := Ion.first_nlte_level (ion G nion)).
  set (L := LOWEST_SUPERLEVEL_THRESHOLD G).
  set (cond := fun '(threshold, n, dep_coef) => _).
  set (body := fun '(threshold, n, dep_coef) => _).
  set (st0 := (Ion.nlte (ion G nion) + ground - 1, 0, _)).
  set (fuel := Z.to_nat _).
  assert (Hinv : let st := while_iter fuel cond body st0 in
                 fst (fst st) <= ground + Ion.nlte (ion G nion) - 1
                 /\ (L < Ion.nlte (ion G nion) -> ground + L <= fst (fst st))).
  { apply (while_iter_inv
             (fun st => fst (fst st) <= ground + Ion.nlte (ion G nion) - 1
                        /\ (L < Ion.nlte (ion G nion) -> ground + L <= fst (fst st)))).
    - intros [[t n] d] [H1 H2] Hc. cbn [fst] in *. subst cond body. cbn beta iota in *.
      apply andb_prop in Hc as [_ Hc]. apply Z.gtb_lt in Hc. cbn [fst]. fold ground L in Hc. lia.
    - subst st0. cbn [fst]. lia. }
  assert (Hout : ~ (1 / LTE_DEP_FRAC < top_dep_coef G xplasma nion s < LTE_DEP_FRAC)%R ->
                 while_iter fuel cond body st0 = st0).
  { intros Hd. apply while_iter_false. subst cond st0. cbn beta iota.
    unfold top_dep_coef in Hd.
    match goal with
    | |- (Rltb ?d ?f && Rltb ?g ?d' && _)%bool = false =>
        destruct (Rltb d f) eqn:E1; [|reflexivity];
        destruct (Rltb g d') eqn:E2; [|reflexivity]
    end.
    apply Rltb_true in E1, E2. exfalso; apply Hd; split; assumption. }
  destruct (while_iter fuel cond body st0) as [[t n] d] eqn:E. cbn [fst] in Hinv.
  destruct Hinv as [H1 H2].
  eexists _, _. split; [reflexivity|]. cbn [mem macromain log add_log].
  split; [reflexivity|]. split; [reflexivity|]. split; [lia|].
  split; [intros HL; specialize (H2 HL); lia|].
  intros Hd. specialize (Hout Hd). subst st0. injection Hout as -> _ _.
  split; [lia|]. do 3 f_equal. lia.
Qed.

(** With the stored threshold one past the ladder, the walk of
    [choose_superlevel_deactivation] does not start and neither of the two
    error branches is taken: the state, log included, is untouched. *)
Lemma choose_with_threshold_past_ladder G xcell uplvl z s :
  Macro.superlevel_threshold (macromain s (Plasma.nplasma xcell)) (Config.nion (config G uplvl))
  = Ion.first_nlte_level (ion G (Config.nion (config G uplvl)))
    + Ion.nlte (ion G (Config.nion (config G uplvl))) ->
  choose_superlevel_deactivation_z G xcell uplvl z s
  = Ret (Ion.first_nlte_level (ion G (Config.nion (config G uplvl)))
         + Ion.nlte (ion G (Config.nion (config G uplvl)))) s.
Proof.
  intros H. unfold choose_superlevel_deactivation_z, bind, get_macro.
  rewrite H, Z.sub_diag. cbn [Z.to_nat while_iter].
  set (n := _ + _).
  replace (n >? n) with false by (rewrite Z.gtb_ltb; symmetry; apply Z.ltb_irrefl).
  replace (n =? n + 1) with false by (symmetry; apply Z.eqb_neq; lia).
  rewrite Z.ltb_irrefl. reflexivity.
Qed.

(** C4.  On a later cycle, when the departure coefficient of the topmost
    level is outside the open band (1/LTE_DEP_FRAC, LTE_DEP_FRAC),
    [get_superlevel_threshold] returns [first_nlte_level + nlte], one past
    the topmost level; and [choose_superlevel_deactivation], whatever the
    draw, run on a cell that stores this threshold returns that index and
    logs no error. *)
Theorem threshold_past_ladder_is_returned_silently G xplasma nion s :
  Geo.wcycle (geo G) <> 0 ->
  ~ (1 / LTE_DEP_FRAC < top_dep_coef G xplasma nion s < LTE_DEP_FRAC)%R ->
  (exists s',
     get_superlevel_threshold G xplasma nion s
     = Ret (Ion.first_nlte_level (ion G nion) + Ion.nlte (ion G nion)) s')
  /\ (forall xcell uplvl rand s1,
        Config.nion (config G uplvl) = nion ->
        Macro.superlevel_threshold (macromain s1 (Plasma.nplasma xcell)) nion
        = Ion.first_nlte_level (ion G nion) + Ion.nlte (ion G nion) ->
        choose_superlevel_deactivation G xcell uplvl rand s1
        = Ret (Ion.first_nlte_level (ion G nion) + Ion.nlte (ion G nion)) s1).
Proof.
  intros Hw Hd. split.
  - destruct (later_cycle_threshold G xplasma nion s Hw)
      as (thr & s' & E & _ & _ & _ & _ & Hout).
    destruct (Hout Hd) as [-> _]. now exists s'.
  - intros xcell uplvl rand s1 <- Hthr.
    now apply choose_with_threshold_past_ladder.
Qed.

Lemma demo_later_top_dep_coef :
  top_dep_coef (demo_globals 1) demo_cell 0 demo_state_later = (1 / (4 / 1))%R.
Proof. reflexivity. Qed.

Lemma threshold_past_ladder_is_returned_silently_witness :
  Geo.wcycle (geo (demo_globals 1)) <> 0
  /\ ~ (1 / LTE_DEP_FRAC < top_dep_coef (demo_globals 1) demo_cell 0 demo_state_later
        < LTE_DEP_FRAC)%R
  /\ (exists s',
        get_superlevel_threshold (demo_globals 1) demo_cell 0 demo_state_later = Ret 3 s')
  /\ (forall xcell uplvl rand s1,
        Config.nion (config (demo_globals 1) uplvl) = 0 ->
        Macro.superlevel_threshold (macromain s1 (Plasma.nplasma xcell)) 0 = 3 ->
        choose_superlevel_deactivation (demo_globals 1) xcell uplvl rand s1 = Ret 3 s1).
Proof.
  assert (H1 : Geo.wcycle (geo (demo_globals 1)) <> 0) by (cbn; lia).
  assert (H2 : ~ (1 / LTE_DEP_FRAC
                  < top_dep_coef (demo_globals 1) demo_cell 0 demo_state_later
                  < LTE_DEP_FRAC)%R).
  { rewrite demo_later_top_dep_coef. unfold LTE_DEP_FRAC. lra. }
  split; [exact H1|]. split; [exact H2|].
  exact (threshold_past_ladder_is_returned_silently
           (demo_globals 1) demo_cell 0 demo_state_later H1 H2).
Defined.

(** C5, as amended.  When the reduced ladder of the ion has more levels
    than the floor [LOWEST_SUPERLEVEL_THRESHOLD], the number of levels
    from the returned threshold to the topmost level is at most the size
    of the ladder minus the floor, on every cycle and for every
    populations. *)
Theorem threshold_respects_floor G xplasma nion s :
  LOWEST_SUPERLEVEL_THRESHOLD G < Ion.nlte (ion G nion) ->
  exists threshold s',
    get_superlevel_threshold G xplasma nion s = Ret threshold s'
    /\ (Ion.first_nlte_level (ion G nion) + Ion.nlte (ion G nion) - 1) - threshold + 1
       <= Ion.nlte (ion G nion) - LOWEST_SUPERLEVEL_THRESHOLD G.
Proof.
  intros HL. destruct (Z.eq_dec (Geo.wcycle (geo G)) 0) as [Hw|Hw].
  - eexists _, _. split; [now apply threshold_on_first_cycle|]. lia.
  - destruct (later_cycle_threshold G xplasma nion s Hw)
      as (thr & s' & E & _ & _ & _ & Hfloor & _).
    exists thr, s'. split; [exact E|]. specialize (Hfloor HL). lia.
Qed.

Lemma threshold_respects_floor_witness :
  LOWEST_SUPERLEVEL_THRESHOLD (demo_globals 1) < Ion.nlte (ion (demo_globals 1) 0)
  /\ exists threshold s',
       get_superlevel_threshold (demo_globals 1) demo_cell 0 demo_state_later
       = Ret threshold s'
       /\ (0 + 3 - 1) - threshold + 1 <= 3 - 1.
Proof.
  split; [reflexivity|].
  exact (threshold_respects_floor (demo_globals 1) demo_cell 0 demo_state_later eq_refl).
Defined.

(** C5, as the claim states it, fails for an ion whose ladder is no longer
    than the floor: with three levels and a floor of three, the first cycle
    returns the topmost level, one aggregated level where the claim allows
    none. *)
Lemma threshold_below_floor_counterexample :
  get_superlevel_threshold demo_globals_short demo_cell 0 demo_state = Ret 2 demo_state
  /\ ~ ((Ion.first_nlte_level (ion demo_globals_short 0)
         + Ion.nlte (ion demo_globals_short 0) - 1) - 2 + 1
        <= Ion.nlte (ion demo_globals_short 0)
           - LOWEST_SUPERLEVEL_THRESHOLD demo_globals_short).
Proof. split; [reflexivity | cbn; lia]. Qed.

(** ** Sampling a superlevel *)

(** The loop of [choose_superlevel_deactivation] ends because its
    condition fails: the fuel it is given is never what stops it. *)
Lemma choose_walk_fuel_suffices (limit : Z) (threshold : R) (w : Z -> R) st :
  (fun '(run_tot, n) => Rltb run_tot threshold && (n <? limit))
    (while_iter (Z.to_nat (limit - snd st))
       (fun '(run_tot, n) => Rltb run_tot threshold && (n <? limit))
       (fun '(run_tot, n) => ((run_tot + w n)%R, n + 1))
       st) = false.
Proof.
  apply (while_iter_exit (fun st => limit - snd st)).
  - intros [r n] Hc. cbn [snd]. apply andb_prop in Hc as [_ Hc].
    apply Z.ltb_lt in Hc. lia.
  - lia.
Qed.

(** The walk over a ladder of four levels whose first three weights are
    0.5, 0.3 and 0.15, with norm 1 and the draw 0.82: the running total
    passes 0.82 when the third level is added, and the loop leaves [n] one
    past that level. *)
Lemma four_level_walk (thr : Z) (w : Z -> R) :
  w thr = 0.5%R -> w (thr + 1) = 0.3%R -> w (thr + 2) = 0.15%R ->
  while_iter 4
    (fun '(run_tot, n) => Rltb run_tot (0.82 * 1)%R && (n <? thr + 4))
    (fun '(run_tot, n) => ((run_tot + w n)%R, n + 1))
    (0%R, thr)
  = (0.95%R, thr + 3).
Proof.
  intros H0 H1 H2.
  set (cond := fun '(run_tot, n) => _).
  set (body := fun '(run_tot, n) => _).
  assert (Hc : forall r k, (r < 0.82)%R -> k < 4 -> cond (r, thr + k) = true).
  { intros r k Hr Hk. subst cond. cbn beta iota.
    rewrite (proj2 (Rltb_true _ _)) by lra. apply Z.ltb_lt. lia. }
  rewrite <- (Z.add_0_r thr) at 1.
  rewrite while_iter_true by (apply Hc; [lra|lia]).
  replace (body (0%R, thr + 0)) with (0.5%R, thr + 1)
    by (subst body; cbn beta iota; rewrite Z.add_0_r, H0; f_equal; lra).
  rewrite while_iter_true by (apply Hc; [lra|lia]).
  replace (body (0.5%R, thr + 1)) with (0.8%R, thr + 2)
    by (subst body; cbn beta iota; rewrite H1; f_equal; [lra|lia]).
  rewrite while_iter_true by (apply Hc; [lra|lia]).
  replace (body (0.8%R, thr + 2)) with (0.95%R, thr + 3)
    by (subst body; cbn beta iota; rewrite H2; f_equal; [lra|lia]).
  apply while_iter_false. subst cond. cbn beta iota.
  rewrite (proj2 (Rltb_false _ _)) by lra. reflexivity.
Qed.

(** C3, as amended.  For a ladder of four levels from the threshold with
    [lte_pop / g = 0.5, 0.3, 0.15, 0.05] and norm 1, the draw 0.82 selects
    the third level, at offset 2 from the threshold (0.82 lies between the
    cumulative sums 0.8 and 0.95), and logs no error. *)
Theorem draw_082_selects_third_level G xcell uplvl s :
  let nion := Config.nion (config G uplvl) in
  let mplasma := macromain s (Plasma.nplasma xcell) in
  let thr := Macro.superlevel_threshold mplasma nion in
  Ion.first_nlte_level (ion G nion) + Ion.nlte (ion G nion) = thr + 4 ->
  Macro.superlevel_norm mplasma nion = 1%R ->
  (Macro.superlevel_lte_pops mplasma thr / Config.g (config G thr) = 0.5)%R ->
  (Macro.superlevel_lte_pops mplasma (thr + 1) / Config.g (config G (thr + 1)) = 0.3)%R ->
  (Macro.superlevel_lte_pops mplasma (thr + 2) / Config.g (config G (thr + 2)) = 0.15)%R ->
  (Macro.superlevel_lte_pops mplasma (thr + 3) / Config.g (config G (thr + 3)) = 0.05)%R ->
  choose_superlevel_deactivation_z G xcell uplvl 0.82 s = Ret (thr + 2) s.
Proof.
  intros nion mplasma thr Hlim Hnorm H0 H1 H2 _.
  unfold choose_superlevel_deactivation_z, bind, get_macro.
  fold nion. fold mplasma. fold thr. rewrite Hlim, Hnorm.
  replace (Z.to_nat (thr + 4 - thr)) with 4%nat by lia.
  match goal with
  | |- context [while_iter 4 ?c ?b ?st] =>
      assert (E : while_iter 4 c b st = (0.95%R, thr + 3))
        by exact (four_level_walk thr
                    (fun n => (Macro.superlevel_lte_pops mplasma n
                               / Config.g (config G n))%R) H0 H1 H2);
      rewrite E
  end.
  replace (thr + 3 >? thr) with true by (symmetry; apply Z.gtb_lt; lia).
  replace (thr + 3 - 1) with (thr + 2) by lia.
  replace (thr + 2 =? thr + 4 + 1) with false by (symmetry; apply Z.eqb_neq; lia).
  replace (thr + 2 <? thr) with false by (symmetry; apply Z.ltb_ge; lia).
  reflexivity.
Qed.

Lemma ladder_state_is_four_level_ladder :
  Ion.first_nlte_level (ion ladder_globals 0) + Ion.nlte (ion ladder_globals 0) = 2 + 4
  /\ Macro.superlevel_norm ladder_macro 0 = 1%R
  /\ (Macro.superlevel_lte_pops ladder_macro 2 / Config.g (config ladder_globals 2) = 0.5)%R
  /\ (Macro.superlevel_lte_pops ladder_macro 3 / Config.g (config ladder_globals 3) = 0.3)%R
  /\ (Macro.superlevel_lte_pops ladder_macro 4 / Config.g (config ladder_globals 4) = 0.15)%R
  /\ (Macro.superlevel_lte_pops ladder_macro 5 / Config.g (config ladder_globals 5) = 0.05)%R.
Proof.
  repeat split;
    cbn [Macro.superlevel_lte_pops ladder_macro Config.g config ladder_globals
         ladder_config Z.eqb Pos.eqb]; lra.
Qed.

Lemma draw_082_selects_third_level_witness :
  choose_superlevel_deactivation_z ladder_globals demo_cell 0 0.82 ladder_state
  = Ret (2 + 2) ladder_state.
Proof.
  destruct ladder_state_is_four_level_ladder as (H & Hn & H0 & H1 & H2 & H3).
  exact (draw_082_selects_third_level ladder_globals demo_cell 0 ladder_state
           H Hn H0 H1 H2 H3).
Defined.

(** C3, as the claim states it, fails: on that ladder the draw 0.82 gives
    the level at offset 2 from the threshold, not the one at offset 3. *)
Lemma draw_082_counterexample :
  Macro.superlevel_threshold (macromain ladder_state (Plasma.nplasma demo_cell)) 0 = 2
  /\ choose_superlevel_deactivation_z ladder_globals demo_cell 0 0.82 ladder_state
     = Ret 4 ladder_state
  /\ 4 <> 2 + 3.
Proof.
  destruct ladder_state_is_four_level_ladder as (_ & _ & H0 & H1 & H2 & _).
  split; [reflexivity|]. split; [|lia].
  unfold choose_superlevel_deactivation_z, bind, get_macro.
  change (Z.to_nat _) with 4%nat.
  match goal with
  | |- context [while_iter 4 ?c ?b ?st] =>
      assert (E : while_iter 4 c b st = (0.95%R, 2 + 3))
        by exact (four_level_walk 2
                    (fun n => (Macro.superlevel_lte_pops ladder_macro n
                               / Config.g (config ladder_globals n))%R) H0 H1 H2);
      rewrite E
  end.
  reflexivity.
Qed.

(** ** Building the superlevels *)

Lemma get_superlevel_threshold_returns G xplasma nion s :
  exists thr s',
    get_superlevel_threshold G xplasma nion s = Ret thr s'
    /\ mem s' = mem s /\ macromain s' = macromain s
    /\ thr <= Ion.first_nlte_level (ion G nion) + Ion.nlte (ion G nion)
    /\ (Geo.wcycle (geo G) = 0 ->
        thr = Ion.first_nlte_level (ion G nion) + Ion.nlte (ion G nion) - 1).
Proof.
  destruct (Z.eq_dec (Geo.wcycle (geo G)) 0) as [Hw|Hw].
  - eexists _, s. split; [now apply threshold_on_first_cycle|].
    repeat split; lia.
  - destruct (later_cycle_threshold G xplasma nion s Hw)
      as (thr & s' & E & Hm & Hmm & Hle & _).
    exists thr, s'. repeat split; try assumption. intros; contradiction.
Qed.

(** What one turn of [setup_superlevels] does to the tables of a cell:
    the ladder of LTE populations and the threshold are assigned, but the
    norm is added to what [superlevel_norm] held before. *)
Lemma setup_cell_spec G nion nplasma s :
  exists s',
    setup_cell G nion nplasma s = Ret tt s'
    /\ mem s' = mem s
    /\ (forall np, np <> nplasma -> macromain s' np = macromain s np)
    /\ Macro.superlevel_lte_pops (macromain s' nplasma) (Ion.first_nlte_level (ion G nion))
       = 1%R
    /\ (forall n,
          Ion.first_nlte_level (ion G nion) < n
          < Ion.first_nlte_level (ion G nion) + Ion.nlte (ion G nion) ->
          Macro.superlevel_lte_pops (macromain s' nplasma) n = lte_pop G nion nplasma n)
    /\ Macro.superlevel_threshold (macromain s' nplasma) nion
       <= Ion.first_nlte_level (ion G nion) + Ion.nlte (ion G nion)
    /\ (Geo.wcycle (geo G) = 0 ->
        Macro.superlevel_threshold (macromain s' nplasma) nion
        = Ion.first_nlte_level (ion G nion) + Ion.nlte (ion G nion) - 1)
    /\ Macro.superlevel_norm (macromain s' nplasma) nion
       = (Macro.superlevel_norm (macromain s nplasma) nion
          + ladder_sum G (macromain s' nplasma)
              (Macro.superlevel_threshold (macromain s' nplasma) nion)
              (Ion.first_nlte_level (ion G nion) + Ion.nlte (ion G nion)))%R.
Proof.
  unfold setup_cell.
  set (ground := Ion.first_nlte_level (ion G nion)).
  set (hi := ground + Ion.nlte (ion G nion)).
  set (s1 := set_macro s nplasma
               (Macro.mk (upd (Macro.superlevel_lte_pops (macromain s nplasma)) ground 1%R)
                  (Macro.superlevel_threshold (macromain s nplasma))
                  (Macro.superlevel_norm (macromain s nplasma)))).
  rewrite (bind_Ret _ _ s tt s1) by reflexivity.
  (* the ladder of LTE populations *)
  match goal with
  | |- context [bind (forM ?lo ?hi ?body tt) _] =>
      destruct (forM_inv
                  (fun i (_ : unit) s' =>
                     mem s' = mem s
                     /\ (forall np, np <> nplasma -> macromain s' np = macromain s np)
                     /\ Macro.superlevel_lte_pops (macromain s' nplasma) ground = 1%R
                     /\ (forall n, ground < n < i ->
                                   Macro.superlevel_lte_pops (macromain s' nplasma) n
                                   = lte_pop G nion nplasma n)
                     /\ Macro.superlevel_threshold (macromain s' nplasma)
                        = Macro.superlevel_threshold (macromain s nplasma)
                     /\ Macro.superlevel_norm (macromain s' nplasma)
                        = Macro.superlevel_norm (macromain s nplasma))
                  body lo hi tt s1)
        as ([] & s2 & E2 & Hm2 & Hf2 & Hg2 & Hp2 & Ht2 & Hn2)
  end.
  { intros i [] s0 Hi (Hm & Hf & Hg & Hp & Ht & Hn).
    eexists tt, _. split; [reflexivity|].
    cbn [mem macromain set_macro]. rewrite upd_same. cbn [Macro.superlevel_lte_pops
      Macro.superlevel_threshold Macro.superlevel_norm].
    split; [exact Hm|]. split; [intros np Hnp; rewrite upd_other by exact Hnp; now apply Hf|].
    split; [rewrite upd_other by lia; exact Hg|].
    split; [|split; assumption].
    intros n Hn'. destruct (Z.eq_dec n i) as [->|Hne].
    - rewrite upd_same. reflexivity.
    - rewrite upd_other by exact Hne. apply Hp. lia. }
  { subst s1. cbn [mem macromain set_macro]. rewrite upd_same.
    cbn [Macro.superlevel_lte_pops Macro.superlevel_threshold Macro.superlevel_norm].
    split; [reflexivity|]. split; [intros np Hnp; now rewrite upd_other|].
    split; [now rewrite upd_same|]. split; [intros n Hn'; lia|]. split; reflexivity. }
  rewrite (bind_Ret _ _ _ _ _ E2).
  (* the threshold *)
  destruct (get_superlevel_threshold_returns G (plasmamain G nplasma) nion s2)
    as (thr & s3 & E3 & Hm3 & Hmm3 & Hle3 & Hfirst3).
  rewrite (bind_Ret _ _ _ _ _ E3).
  set (s4 := set_macro s3 nplasma
               (Macro.mk (Macro.superlevel_lte_pops (macromain s3 nplasma))
                  (upd (Macro.superlevel_threshold (macromain s3 nplasma)) nion thr)
                  (Macro.superlevel_norm (macromain s3 nplasma)))).
  rewrite (bind_Ret _ _ s3 tt s4) by reflexivity.
  rewrite (bind_Ret _ _ s4 (macromain s4 nplasma) s4) by reflexivity.
  assert (Hthr4 : Macro.superlevel_threshold (macromain s4 nplasma) nion = thr).
  { subst s4. cbn [macromain set_macro]. rewrite upd_same.
    cbn [Macro.superlevel_threshold]. now rewrite upd_same. }
  assert (Hpops4 : Macro.superlevel_lte_pops (macromain s4 nplasma)
                   = Macro.superlevel_lte_pops (macromain s2 nplasma)).
  { subst s4. cbn [macromain set_macro]. rewrite upd_same.
    cbn [Macro.superlevel_lte_pops]. now rewrite Hmm3. }
  assert (Hnorm4 : Macro.superlevel_norm (macromain s4 nplasma) nion
                   = Macro.superlevel_norm (macromain s nplasma) nion).
  { subst s4. cbn [macromain set_macro]. rewrite upd_same.
    cbn [Macro.superlevel_norm]. now rewrite Hmm3, Hn2. }
  rewrite Hthr4.
  (* the norm *)
  match goal with
  | |- context [forM thr hi ?body tt s4] =>
      destruct (forM_inv
                  (fun i (_ : unit) s' =>
                     mem s' = mem s
                     /\ (forall np, np <> nplasma -> macromain s' np = macromain s np)
                     /\ Macro.superlevel_lte_pops (macromain s' nplasma)
                        = Macro.superlevel_lte_pops (macromain s2 nplasma)
                     /\ Macro.superlevel_threshold (macromain s' nplasma) nion = thr
                     /\ Macro.superlevel_norm (macromain s' nplasma) nion
                        = (Macro.superlevel_norm (macromain s nplasma) nion
                           + ladder_sum G (macromain s2 nplasma) thr i)%R)
                  body thr hi tt s4)
        as ([] & s5 & E5 & Hm5 & Hf5 & Hp5 & Ht5 & Hn5)
  end.
  { intros i [] s0 Hi (Hm & Hf & Hp & Ht & Hn).
    eexists tt, _. split; [reflexivity|].
    cbn [mem macromain set_macro]. rewrite upd_same. cbn [Macro.superlevel_lte_pops
      Macro.superlevel_threshold Macro.superlevel_norm].
    split; [exact Hm|]. split; [intros np Hnp; rewrite upd_other by exact Hnp; now apply Hf|].
    split; [exact Hp|]. split; [exact Ht|].
    rewrite upd_same, Hn, Hp. unfold ladder_sum.
    rewrite for_loop_snoc by lia. lra. }
  { split; [subst s4; cbn [mem set_macro]; now rewrite Hm3|].
    split; [intros np Hnp; subst s4; cbn [macromain set_macro];
            rewrite upd_other by exact Hnp; rewrite Hmm3; now apply Hf2|].
    split; [exact Hpops4|]. split; [exact Hthr4|].
    rewrite Hnorm4. unfold ladder_sum. rewrite for_loop_empty by lia. lra. }
  rewrite Z.max_r in Hn5 by (subst hi ground; lia).
  exists s5. split; [exact E5|]. split; [exact Hm5|]. split; [exact Hf5|].
  rewrite Hp5, Ht5.
  split; [exact Hg2|].
  split; [intros n Hn'; apply Hp2; rewrite Z.max_r by (subst hi; lia); exact Hn'|].
  split; [exact Hle3|]. split; [exact Hfirst3|].
  rewrite Hn5. unfold ladder_sum. now rewrite Hp5.
Qed.

(** ** What the loops of partition.c and levels.c write *)

Lemma upd_heap_other h a i v b j :
  ~ (b = a /\ j = i) -> upd_heap h a i v b j = h b j.
Proof.
  intros H. unfold upd_heap.
  destruct (Pos.eqb_spec b a) as [->|Hne]; [|reflexivity].
  destruct (Z.eqb_spec j i) as [->|Hne]; [|reflexivity].
  exfalso; apply H; split; reflexivity.
Qed.

(** The loop over the ions [lo <= nion < hi] assigns [partition_value] to
    their entries of the partition array and touches nothing else. *)
Lemma partition_loop_spec G xplasma lo hi t weight s :
  exists s',
    partition_loop G xplasma lo hi t weight s = Ret tt s'
    /\ log s' = log s
    /\ macromain s' = macromain s
    /\ (forall a j, ~ (a = Plasma.partition xplasma /\ lo <= j < hi) ->
                    mem s' a j = mem s a j)
    /\ (forall j, lo <= j < hi ->
                  mem s' (Plasma.partition xplasma) j
                  = partition_value G weight (BOLTZMANN G * t) j).
Proof.
  unfold partition_loop.
  match goal with
  | |- context [forM lo hi ?body tt s] =>
      destruct (forM_inv
                  (fun i (_ : unit) s' =>
                     log s' = log s
                     /\ macromain s' = macromain s
                     /\ (forall a j, ~ (a = Plasma.partition xplasma /\ lo <= j < i) ->
                                     mem s' a j = mem s a j)
                     /\ (forall j, lo <= j < i ->
                                   mem s' (Plasma.partition xplasma) j
                                   = partition_value G weight (BOLTZMANN G * t) j))
                  body lo hi tt s)
        as ([] & s' & E & Hl & Hm & Hframe & Hval)
  end.
  - intros i [] s0 Hi (Hl & Hm & Hframe & Hval).
    eexists tt, _. split; [reflexivity|]. cbn [log macromain mem set_mem].
    split; [exact Hl|]. split; [exact Hm|]. split.
    + intros a j Hout. rewrite upd_heap_other by (intros [-> ->]; apply Hout; split; [easy|lia]).
      apply Hframe. intros [-> Hj]. apply Hout. split; [easy|lia].
    + intros j Hj. destruct (Z.eq_dec j i) as [->|Hne].
      * apply upd_heap_same.
      * rewrite upd_heap_other by (intros [_ ->]; easy). apply Hval. lia.
  - repeat split; try reflexivity. intros j Hj. lia.
  - exists s'. split; [exact E|]. split; [exact Hl|]. split; [exact Hm|]. split.
    + intros a j Hout. apply Hframe. intros [-> Hj]. apply Hout. split; [easy|lia].
    + intros j Hj. apply Hval. lia.
Qed.

(** [get_boltzmann_populations] writes the entry [nlevden] and the
    [nlte - 1] entries after it, and touches nothing else. *)
Lemma get_boltzmann_populations_spec G levden_array nion w t z nlevden s :
  exists s',
    get_boltzmann_populations G levden_array nion w t z nlevden s = Ret 0 s'
    /\ log s' = log s
    /\ macromain s' = macromain s
    /\ (forall a j, ~ (a = levden_array
                       /\ (j = nlevden \/ nlevden < j < nlevden + Ion.nlte (ion G nion))) ->
                    mem s' a j = mem s a j)
    /\ mem s' levden_array nlevden
       = (Config.g (config G (Ion.first_nlte_level (ion G nion))) / z)%R
    /\ (forall n, 1 <= n < Ion.nlte (ion G nion) ->
                  mem s' levden_array (nlevden + n) = boltzmann_population G nion w t z n).
Proof.
  unfold get_boltzmann_populations.
  set (m0 := Ion.first_nlte_level (ion G nion)).
  set (s1 := set_mem s (upd_heap (mem s) levden_array nlevden (Config.g (config G m0) / z)%R)).
  rewrite (bind_Ret _ _ s tt s1) by reflexivity.
  match goal with
  | |- context [bind (forM 1 ?hi ?body ?l0) _] =>
      destruct (forM_inv
                  (fun i '(m, nl) s' =>
                     m = m0 + (i - 1) /\ nl = nlevden + (i - 1)
                     /\ log s' = log s
                     /\ macromain s' = macromain s
                     /\ (forall a j, ~ (a = levden_array
                                        /\ (j = nlevden \/ nlevden < j < nlevden + i)) ->
                                     mem s' a j = mem s a j)
                     /\ mem s' levden_array nlevden = (Config.g (config G m0) / z)%R
                     /\ (forall n, 1 <= n < i ->
                                   mem s' levden_array (nlevden + n)
                                   = boltzmann_population G nion w t z n))
                  body 1 hi l0 s1)
        as ([m nl] & s' & E & _ & _ & Hl & Hm & Hframe & Hg & Hval)
  end.
  - intros i [m nl] s0 Hi (-> & -> & Hl & Hm & Hframe & Hg & Hval).
    eexists (_, _), _. split; [reflexivity|]. cbn [log macromain mem set_mem].
    split; [lia|]. split; [lia|]. split; [exact Hl|]. split; [exact Hm|]. split; [|split].
    + intros a j Hout.
      rewrite upd_heap_other by (intros [-> ->]; apply Hout; split; [easy|lia]).
      apply Hframe. intros [-> Hj]. apply Hout. split; [easy|lia].
    + rewrite upd_heap_other by (intros [_ Hj]; lia). exact Hg.
    + intros n Hn. destruct (Z.eq_dec n i) as [->|Hne].
      * replace (nlevden + (i - 1) + 1) with (nlevden + i) by lia.
        rewrite upd_heap_same. unfold boltzmann_population. fold m0.
        now replace (m0 + (i - 1) + 1) with (m0 + i) by lia.
      * rewrite upd_heap_other by (intros [_ Hj]; lia). apply Hval. lia.
  - split; [lia|]. split; [lia|]. subst s1. cbn [log macromain mem set_mem].
    repeat split.
    + intros a j Hout. apply upd_heap_other. intros [-> ->]. apply Hout. split; [easy|now left].
    + apply upd_heap_same.
    + intros n Hn. lia.
  - rewrite (bind_Ret _ _ _ _ _ E). exists s'. split; [reflexivity|].
    split; [exact Hl|]. split; [exact Hm|]. split; [|split].
    + intros a j Hout. apply Hframe. intros [-> Hj]. apply Hout. split; [easy|lia].
    + exact Hg.
    + intros n Hn. apply Hval. lia.
Qed.

Lemma levels_computes_nlte G nion :
  levels_computes G nion = true -> 0 < Ion.nlte (ion G nion).
Proof.
  unfold levels_computes. intros H. apply andb_prop in H as [H _].
  apply Z.gtb_lt in H. lia.
Qed.

(** One turn of the loop of [levels]. *)
Lemma levels_body_spec G xplasma t weight nion s :
  exists s',
    levels_body G xplasma t weight nion s = Ret tt s'
    /\ log s' = log s
    /\ macromain s' = macromain s
    /\ (forall a j,
          ~ (a = Plasma.levden xplasma /\ levels_computes G nion = true
             /\ Ion.first_levden (ion G nion) <= j
                < Ion.first_levden (ion G nion) + Ion.nlte (ion G nion)) ->
          mem s' a j = mem s a j)
    /\ (levels_computes G nion = true ->
        mem s' (Plasma.levden xplasma) (Ion.first_levden (ion G nion))
        = (Config.g (config G (Ion.first_nlte_level (ion G nion)))
           / mem s (Plasma.partition xplasma) nion)%R
        /\ (forall n, 1 <= n < Ion.nlte (ion G nion) ->
                      mem s' (Plasma.levden xplasma) (Ion.first_levden (ion G nion) + n)
                      = boltzmann_population G nion weight t
                          (mem s (Plasma.partition xplasma) nion) n)).
Proof.
  unfold levels_body. destruct (levels_computes G nion) eqn:Hc.
  - unfold load at 1. rewrite (bind_Ret _ _ s (mem s (Plasma.partition xplasma) nion) s)
      by reflexivity.
    destruct (get_boltzmann_populations_spec G (Plasma.levden xplasma) nion weight t
                (mem s (Plasma.partition xplasma) nion) (Ion.first_levden (ion G nion)) s)
      as (s' & E & Hl & Hm & Hframe & Hg & Hval).
    rewrite (bind_Ret _ _ _ _ _ E). exists s'. split; [reflexivity|].
    split; [exact Hl|]. split; [exact Hm|]. split.
    + intros a j Hout. apply Hframe. intros [-> Hj]. apply Hout.
      pose proof (levels_computes_nlte G nion Hc). repeat split; lia.
    + intros _. split; assumption.
  - exists s. split; [reflexivity|]. repeat split; discriminate.
Qed.

(** The loop of [levels] writes into the array [levden] only; and the
    populations it leaves for an ion, when no later ion shares its entries
    of [levden], are those of [get_boltzmann_populations] for the partition
    function stored for that ion. *)
Lemma levels_loop_spec G xplasma t weight s :
  exists s',
    levels_loop G xplasma t weight s = Ret tt s'
    /\ log s' = log s
    /\ macromain s' = macromain s
    /\ (forall a j, a <> Plasma.levden xplasma -> mem s' a j = mem s a j)
    /\ (forall nion,
          Plasma.partition xplasma <> Plasma.levden xplasma ->
          0 <= nion < nions G ->
          levels_computes G nion = true ->
          (forall j, nion < j < nions G -> levels_computes G j = true ->
                     levden_disjoint G nion j) ->
          mem s' (Plasma.levden xplasma) (Ion.first_levden (ion G nion))
          = (Config.g (config G (Ion.first_nlte_level (ion G nion)))
             / mem s (Plasma.partition xplasma) nion)%R
          /\ (forall n, 1 <= n < Ion.nlte (ion G nion) ->
                        mem s' (Plasma.levden xplasma) (Ion.first_levden (ion G nion) + n)
                        = boltzmann_population G nion weight t
                            (mem s (Plasma.partition xplasma) nion) n)).
Proof.
  unfold levels_loop.
  match goal with
  | |- context [forM 0 ?hi ?body tt s] =>
      destruct (forM_inv
                  (fun i (_ : unit) s' =>
                     log s' = log s
                     /\ macromain s' = macromain s
                     /\ (forall a j, a <> Plasma.levden xplasma -> mem s' a j = mem s a j)
                     /\ (forall nion,
                           Plasma.partition xplasma <> Plasma.levden xplasma ->
                           0 <= nion < i ->
                           levels_computes G nion = true ->
                           (forall j, nion < j < i -> levels_computes G j = true ->
                                      levden_disjoint G nion j) ->
                           mem s' (Plasma.levden xplasma) (Ion.first_levden (ion G nion))
                           = (Config.g (config G (Ion.first_nlte_level (ion G nion)))
                              / mem s (Plasma.partition xplasma) nion)%R
                           /\ (forall n, 1 <= n < Ion.nlte (ion G nion) ->
                                         mem s' (Plasma.levden xplasma)
                                           (Ion.first_levden (ion G nion) + n)
                                         = boltzmann_population G nion weight t
                                             (mem s (Plasma.partition xplasma) nion) n)))
                  body 0 hi tt s)
        as ([] & s' & E & Hl & Hm & Hframe & Hval)
  end.
  - intros i [] s0 Hi (Hl & Hm & Hframe & Hval).
    destruct (levels_body_spec G xplasma t weight i s0)
      as (s1 & E1 & Hl1 & Hm1 & Hframe1 & Hval1).
    exists tt, s1. split; [exact E1|].
    split; [congruence|]. split; [congruence|]. split.
    + intros a j Ha. rewrite Hframe1 by (intros [-> _]; easy). now apply Hframe.
    + intros nion Hpl Hn Hc Hdis. destruct (Z.eq_dec nion i) as [->|Hne].
      * rewrite <- (Hframe (Plasma.partition xplasma) i Hpl). now apply Hval1.
      * assert (Hold := Hval nion Hpl ltac:(lia) Hc
                          ltac:(intros j Hj; apply Hdis; lia)).
        destruct Hold as [Hg Hrest].
        assert (Hkeep : forall j,
                   Ion.first_levden (ion G nion) <= j
                   < Ion.first_levden (ion G nion) + Ion.nlte (ion G nion) ->
                   mem s1 (Plasma.levden xplasma) j = mem s0 (Plasma.levden xplasma) j).
        { intros j Hj. apply Hframe1. intros (_ & Hci & Hji).
          destruct (Hdis i ltac:(lia) Hci) as [Hd|Hd]; lia. }
        pose proof (levels_computes_nlte G nion Hc).
        split.
        -- rewrite Hkeep by lia. exact Hg.
        -- intros n Hn'. rewrite Hkeep by lia. now apply Hrest.
  - repeat split; try reflexivity; lia.
  - exists s'. split; [exact E|]. split; [exact Hl|]. split; [exact Hm|].
    split; [exact Hframe|].
    intros nion Hpl Hn Hc Hdis.
    apply Hval; try assumption; try lia.
    intros j Hj. apply Hdis. lia.
Qed.

(** After [partition_functions], for a mode of the table: the partition
    array holds [partition_value] for every ion, and the store is otherwise
    what the loop of [levels] makes of it. *)
Lemma partition_functions_spec G xplasma mode t weight s :
  mode_selects xplasma mode t weight ->
  exists s1 s',
    partition_loop G xplasma 0 (nions G) t weight s = Ret tt s1
    /\ levels_loop G xplasma t weight s1 = Ret tt s'
    /\ partition_functions G xplasma mode s = Ret 0 s'.
Proof.
  intros Hsel.
  destruct (partition_loop_spec G xplasma 0 (nions G) t weight s) as (s1 & E1 & _).
  destruct (levels_loop_spec G xplasma t weight s1) as (s' & E2 & _).
  exists s1, s'. split; [exact E1|]. split; [exact E2|].
  rewrite (partition_functions_eq _ _ _ _ _ _ Hsel).
  rewrite (bind_Ret _ _ _ _ _ E1).
  rewrite (bind_Ret _ _ s1 0 s'); [reflexivity|].
  rewrite (levels_eq _ _ _ _ _ _ Hsel). now rewrite (bind_Ret _ _ _ _ _ E2).
Qed.

(** C7.  For a mode that selects the temperature [t] and the weight
    [weight], and an ion index [1 <= k < nions], the values that
    [partition_functions_2] leaves in the partition array for the ions
    [k - 1] and [k] are those that [partition_functions] leaves there; and
    [partition_functions_2] writes nothing else.  The cell is assumed to
    keep its partition functions and its level populations in two
    different arrays. *)
Theorem partition_functions_2_agrees G xplasma mode t weight k s :
  mode_selects xplasma mode t weight ->
  1 <= k < nions G ->
  Plasma.partition xplasma <> Plasma.levden xplasma ->
  exists s1 s2,
    partition_functions G xplasma mode s = Ret 0 s1
    /\ partition_functions_2 G xplasma k t weight s = Ret 0 s2
    /\ mem s2 (Plasma.partition xplasma) (k - 1) = mem s1 (Plasma.partition xplasma) (k - 1)
    /\ mem s2 (Plasma.partition xplasma) k = mem s1 (Plasma.partition xplasma) k
    /\ (forall a j, ~ (a = Plasma.partition xplasma /\ (j = k - 1 \/ j = k)) ->
                    mem s2 a j = mem s a j).
Proof.
  intros Hsel Hk Hpl.
  destruct (partition_functions_spec G xplasma mode t weight s Hsel)
    as (sp & s1 & Ep & El & E1).
  destruct (partition_loop_spec G xplasma 0 (nions G) t weight s)
    as (sp' & Ep' & _ & _ & _ & Hval).
  rewrite Ep in Ep'. injection Ep' as <-.
  destruct (levels_loop_spec G xplasma t weight sp) as (s1' & El' & _ & _ & Hframe & _).
  rewrite El in El'. injection El' as <-.
  destruct (partition_loop_spec G xplasma (k - 1) (k + 1) t weight s)
    as (s2 & E2 & _ & _ & Hframe2 & Hval2).
  exists s1, s2. split; [exact E1|]. split.
  { rewrite partition_functions_2_eq. now rewrite (bind_Ret _ _ _ _ _ E2). }
  split; [|split].
  - rewrite (Hframe _ _ Hpl), Hval2, Hval by lia. reflexivity.
  - rewrite (Hframe _ _ Hpl), Hval2, Hval by lia. reflexivity.
  - intros a j Hout. apply Hframe2. intros [-> Hj]. apply Hout. split; [easy|lia].
Qed.

Lemma demo_mode_selects : mode_selects demo_cell 0 1 1.
Proof. left. repeat split. Qed.

Lemma partition_functions_2_agrees_witness :
  exists s1 s2,
    partition_functions (demo_globals 0) demo_cell 0 demo_state = Ret 0 s1
    /\ partition_functions_2 (demo_globals 0) demo_cell 1 1 1 demo_state = Ret 0 s2
    /\ mem s2 (Plasma.partition demo_cell) (1 - 1) = mem s1 (Plasma.partition demo_cell) (1 - 1)
    /\ mem s2 (Plasma.partition demo_cell) 1 = mem s1 (Plasma.partition demo_cell) 1
    /\ (forall a j, ~ (a = Plasma.partition demo_cell /\ (j = 1 - 1 \/ j = 1)) ->
                    mem s2 a j = mem demo_state a j).
Proof.
  apply (partition_functions_2_agrees (demo_globals 0) demo_cell 0 1 1 1 demo_state).
  - exact demo_mode_selects.
  - cbn; lia.
  - cbn; discriminate.
Defined.

(** ** Ground-state-only mode *)

(** A sum of terms that are all zero stays where it starts. *)
Lemma vanishing_sum (f : Z -> R) (k : nat) :
  (forall m, f m = 0%R) ->
  forall i m z,
    snd (for_iter k i (fun _ '(m, z) => (m + 1, (z + f (m + 1)%Z)%R)) (m, z)) = z.
Proof.
  intros Hf. induction k as [|k IH]; intros i m z; cbn [for_iter]; [reflexivity|].
  rewrite IH, Hf. lra.
Qed.

Lemma partition_value_weight_zero G kt nion :
  partition_value G 0 kt nion = partition_ground_weight G nion.
Proof.
  unfold partition_value, partition_ground_weight, for_loop.
  destruct (_ >? 0).
  - exact (vanishing_sum
             (fun m => (0 * Config.g (config G m)
                        * exp ((- Config.ex (config G m)
                                + Config.ex (config G (Ion.firstlevel (ion G nion)))) / kt))%R)
             _ ltac:(intros; lra) _ _ _).
  - destruct (_ >? 0); [|reflexivity].
    exact (vanishing_sum
             (fun m => (0 * Config.g (config G m)
                        * exp ((- Config.ex (config G m)
                                + Config.ex (config G (Ion.first_nlte_level (ion G nion))))
                               / kt))%R)
             _ ltac:(intros; lra) _ _ _).
Qed.

(** What [partition_functions] leaves in [levden] for an ion whose
    populations [levels] computes, in terms of the partition function it
    has just stored for that ion. *)
Lemma partition_functions_levden G xplasma mode t weight nion s :
  mode_selects xplasma mode t weight ->
  Plasma.partition xplasma <> Plasma.levden xplasma ->
  0 <= nion < nions G ->
  levels_computes G nion = true ->
  (forall j, nion < j < nions G -> levels_computes G j = true -> levden_disjoint G nion j) ->
  exists s',
    partition_functions G xplasma mode s = Ret 0 s'
    /\ mem s' (Plasma.partition xplasma) nion = partition_value G weight (BOLTZMANN G * t) nion
    /\ mem s' (Plasma.levden xplasma) (Ion.first_levden (ion G nion))
       = (Config.g (config G (Ion.first_nlte_level (ion G nion)))
          / partition_value G weight (BOLTZMANN G * t) nion)%R
    /\ (forall n, 1 <= n < Ion.nlte (ion G nion) ->
                  mem s' (Plasma.levden xplasma) (Ion.first_levden (ion G nion) + n)
                  = boltzmann_population G nion weight t
                      (partition_value G weight (BOLTZMANN G * t) nion) n).
Proof.
  intros Hsel Hpl Hn Hc Hdis.
  destruct (partition_functions_spec G xplasma mode t weight s Hsel)
    as (sp & s' & Ep & El & E).
  destruct (partition_loop_spec G xplasma 0 (nions G) t weight s)
    as (sp' & Ep' & _ & _ & _ & Hval).
  rewrite Ep in Ep'. injection Ep' as <-.
  destruct (levels_loop_spec G xplasma t weight sp) as (s1 & El' & _ & _ & Hframe & Hpop).
  rewrite El in El'. injection El' as <-.
  destruct (Hpop nion Hpl Hn Hc Hdis) as [Hg Hrest].
  rewrite (Hval nion Hn) in Hg, Hrest.
  exists s'. split; [exact E|]. split; [|split; assumption].
  rewrite (Hframe _ _ Hpl). now apply Hval.
Qed.

(** C6, as amended.  In ground-state-only mode, after
    [partition_functions], an ion whose populations [levels] computes has
    [levden[ground] = 1] and [levden = 0] for its levels above the ground
    level, whatever the temperatures of the cell, provided that the weight
    of its first reduced level is not zero and is the weight from which its
    partition sum starts (the weight of its first "lte" level when the ion
    has such levels).  The cell keeps its partition functions and its
    level populations in two different arrays, and no later ion shares the
    entries of [levden] of this ion. *)
Theorem ground_state_only_populations G xplasma nion s :
  Plasma.partition xplasma <> Plasma.levden xplasma ->
  0 <= nion < nions G ->
  levels_computes G nion = true ->
  (forall j, nion < j < nions G -> levels_computes G j = true -> levden_disjoint G nion j) ->
  Config.g (config G (Ion.first_nlte_level (ion G nion))) <> 0%R ->
  (0 < Ion.nlevels (ion G nion) ->
   Config.g (config G (Ion.firstlevel (ion G nion)))
   = Config.g (config G (Ion.first_nlte_level (ion G nion)))) ->
  exists s',
    partition_functions G xplasma NEBULARMODE_LTE_GROUND s = Ret 0 s'
    /\ mem s' (Plasma.levden xplasma) (Ion.first_levden (ion G nion)) = 1%R
    /\ (forall n, 1 <= n < Ion.nlte (ion G nion) ->
                  mem s' (Plasma.levden xplasma) (Ion.first_levden (ion G nion) + n) = 0%R).
Proof.
  intros Hpl Hn Hc Hdis Hg0 Hsame.
  assert (Hsel : mode_selects xplasma NEBULARMODE_LTE_GROUND (Plasma.t_e xplasma) 0)
    by (do 4 right; repeat split).
  destruct (partition_functions_levden G xplasma _ _ _ nion s Hsel Hpl Hn Hc Hdis)
    as (s' & E & _ & Hg & Hrest).
  assert (Hz : partition_value G 0 (BOLTZMANN G * Plasma.t_e xplasma) nion
               = Config.g (config G (Ion.first_nlte_level (ion G nion)))).
  { rewrite partition_value_weight_zero. unfold partition_ground_weight.
    pose proof (levels_computes_nlte G nion Hc) as Hnlte.
    destruct (Z.gtb_spec (Ion.nlevels (ion G nion)) 0) as [H|H]; [now apply Hsame|].
    destruct (Z.gtb_spec (Ion.nlte (ion G nion)) 0) as [H'|H']; [reflexivity|lia]. }
  exists s'. split; [exact E|]. split.
  - rewrite Hg, Hz. now field.
  - intros n Hn'. rewrite (Hrest n Hn'). unfold boltzmann_population, Rdiv. ring.
Qed.

Lemma ground_state_only_populations_witness :
  exists s',
    partition_functions (demo_globals 0) demo_cell NEBULARMODE_LTE_GROUND demo_state = Ret 0 s'
    /\ mem s' (Plasma.levden demo_cell) (Ion.first_levden (ion (demo_globals 0) 0)) = 1%R
    /\ (forall n, 1 <= n < Ion.nlte (ion (demo_globals 0) 0) ->
                  mem s' (Plasma.levden demo_cell)
                    (Ion.first_levden (ion (demo_globals 0) 0) + n) = 0%R).
Proof.
  apply (ground_state_only_populations (demo_globals 0) demo_cell 0 demo_state).
  - cbn; discriminate.
  - cbn; lia.
  - reflexivity.
  - intros j Hj. assert (j = 1) as -> by (cbn in Hj; lia). discriminate.
  - cbn. lra.
  - reflexivity.
Defined.

(** C6, as the claim states it, fails for an ion whose partition sum
    starts from another weight than that of its first reduced level: with
    weights 2 and 4, ground-state-only mode leaves [levden[ground] = 2]. *)
Lemma ground_state_only_counterexample :
  levels_computes split_globals 0 = true
  /\ exists s',
       partition_functions split_globals demo_cell NEBULARMODE_LTE_GROUND demo_state
       = Ret 0 s'
       /\ mem s' (Plasma.levden demo_cell) (Ion.first_levden (ion split_globals 0)) = 2%R
       /\ mem s' (Plasma.levden demo_cell) (Ion.first_levden (ion split_globals 0)) <> 1%R.
Proof.
  split; [reflexivity|].
  assert (Hsel : mode_selects demo_cell NEBULARMODE_LTE_GROUND (Plasma.t_e demo_cell) 0)
    by (do 4 right; repeat split).
  destruct (partition_functions_levden split_globals demo_cell _ _ _ 0 demo_state Hsel)
    as (s' & E & _ & Hg & _).
  - cbn; discriminate.
  - cbn; lia.
  - reflexivity.
  - intros j Hj. cbn in Hj. lia.
  - rewrite partition_value_weight_zero in Hg.
    assert (H2 : mem s' (Plasma.levden demo_cell) (Ion.first_levden (ion split_globals 0))
                 = 2%R).
    { rewrite Hg. cbn [partition_ground_weight split_globals ion config split_ion split_config
                       Ion.nlevels Ion.firstlevel Ion.first_nlte_level Config.g Z.gtb
                       Z.compare Z.eqb Pos.eqb]. lra. }
    exists s'. split; [exact E|]. split; [exact H2|]. rewrite H2. lra.
Qed.

(** ** A three-level ion *)

Lemma demo_exp_arguments :
  ((- (1) + 0) / (1 * 1) = -1)%R /\ ((- (2) + 0) / (1 * 1) = -2)%R.
Proof. split; lra. Qed.

Lemma demo_partition_value wcycle :
  partition_value (demo_globals wcycle) 1 (BOLTZMANN (demo_globals wcycle) * 1) 0 = demo_Z.
Proof.
  unfold partition_value, for_loop.
  change (Z.to_nat (Ion.nlevels (ion (demo_globals wcycle) 0) - 1)) with 2%nat.
  cbn. destruct demo_exp_arguments as [-> ->]. unfold demo_Z. lra.
Qed.

Lemma demo_Z_gt_1 : (1 < demo_Z)%R.
Proof.
  unfold demo_Z. pose proof (exp_pos (-1)). pose proof (exp_pos (-2)). lra.
Qed.

(** C8.  The scenario of the claim, run through [partition_functions] and
    the [levels] it calls: the partition function is [Z = 1 + 3 e^-1 + 5
    e^-2] and the ground population is [1 / Z], but the two upper levels
    get [3 e^-1 / Z^2] and [5 e^-2 / Z^2], because
    [get_boltzmann_populations] multiplies by [ground = g / z] and divides
    by [z] again; the three populations do not sum to 1. *)
Theorem three_level_ion_populations :
  exists s',
    partition_functions (demo_globals 0) demo_cell NEBULARMODE_TR demo_state = Ret 0 s'
    /\ mem s' (Plasma.partition demo_cell) 0 = demo_Z
    /\ mem s' (Plasma.levden demo_cell) 0 = (1 / demo_Z)%R
    /\ mem s' (Plasma.levden demo_cell) 1 = (3 * exp (-1) / demo_Z / demo_Z)%R
    /\ mem s' (Plasma.levden demo_cell) 2 = (5 * exp (-2) / demo_Z / demo_Z)%R
    /\ mem s' (Plasma.levden demo_cell) 1 <> (3 * exp (-1) / demo_Z)%R
    /\ mem s' (Plasma.levden demo_cell) 2 <> (5 * exp (-2) / demo_Z)%R
    /\ (mem s' (Plasma.levden demo_cell) 0%Z + mem s' (Plasma.levden demo_cell) 1%Z
        + mem s' (Plasma.levden demo_cell) 2%Z <> 1)%R.
Proof.
  destruct (partition_functions_levden (demo_globals 0) demo_cell NEBULARMODE_TR 1 1 0
              demo_state demo_mode_selects)
    as (s' & E & Hz & Hg & Hrest).
  - cbn; discriminate.
  - cbn; lia.
  - reflexivity.
  - intros j Hj. assert (j = 1) as -> by (cbn in Hj; lia). discriminate.
  - rewrite demo_partition_value in Hz, Hg, Hrest.
    assert (H1 := Hrest 1 ltac:(cbn; lia)). assert (H2 := Hrest 2 ltac:(cbn; lia)).
    unfold boltzmann_population in H1, H2. cbn in Hg, H1, H2.
    destruct demo_exp_arguments as [Ea Eb]. rewrite Ea in H1. rewrite Eb in H2.
    pose proof demo_Z_gt_1 as HZ.
    pose proof (exp_pos (-1)) as Ha. pose proof (exp_pos (-2)) as Hb.
    assert (HZdef : (demo_Z = 1 + 3 * exp (-1) + 5 * exp (-2))%R) by reflexivity.
    set (a := exp (-1)) in *. set (b := exp (-2)) in *.
    assert (Hi : (/ demo_Z * demo_Z = 1)%R) by (apply Rinv_l; lra).
    assert (Hipos : (0 < / demo_Z)%R) by (apply Rinv_0_lt_compat; lra).
    assert (Hilt : (/ demo_Z < 1)%R).
    { rewrite <- Rinv_1. apply Rinv_lt_contravar; lra. }
    exists s'. split; [exact E|]. split; [exact Hz|].
    cbn [Plasma.levden demo_cell].
    split; [exact Hg|].
    split; [rewrite H1; unfold Rdiv; ring|].
    split; [rewrite H2; unfold Rdiv; ring|].
    rewrite Hg, H1, H2. unfold Rdiv. set (i := (/ demo_Z)%R) in *.
    split; [|split].
    + intros H. assert (a * i * (1 - i) = 0)%R by lra.
      assert (0 < a * i * (1 - i))%R by (repeat apply Rmult_lt_0_compat; lra). lra.
    + intros H. assert (b * i * (1 - i) = 0)%R by lra.
      assert (0 < b * i * (1 - i))%R by (repeat apply Rmult_lt_0_compat; lra). lra.
    + intros H.
      assert (Hsum : (1 * i + 1 * i * 1 * 3 * a * i + 1 * i * 1 * 5 * b * i
                      = i + (demo_Z - 1) * i * i)%R) by (rewrite HZdef; ring).
      rewrite Hsum in H.
      assert (Hq : ((demo_Z - 1) * i * i = i * (1 - i))%R).
      { replace ((demo_Z - 1) * i * i)%R with ((i * demo_Z) * i - i * i)%R by ring.
        rewrite Hi. ring. }
      rewrite Hq in H.
      assert ((1 - i) * (1 - i) = 0)%R by lra.
      assert (0 < (1 - i) * (1 - i))%R by (apply Rmult_lt_0_compat; lra). lra.
Qed.

(** ** The norm of a superlevel over two cycles *)

(** On the test data [setup_superlevels] is one turn for ion 0 and cell 0. *)
Lemma demo_setup_superlevels wcycle lowest s s' :
  setup_cell (demo_globals_floor wcycle lowest) 0 0 s = Ret tt s' ->
  setup_superlevels (demo_globals_floor wcycle lowest) s = Ret 0 s'.
Proof.
  intros E.
  change (setup_superlevels (demo_globals_floor wcycle lowest) s)
    with (bind (bind (bind (setup_cell (demo_globals_floor wcycle lowest) 0 0)
                        (fun l => ret l))
                  (fun _ => bind (ret tt) (fun l => ret l)))
            (fun _ => ret 0) s).
  unfold bind. now rewrite E.
Qed.

Lemma demo_first_ladder_sum m :
  Macro.superlevel_lte_pops m 2 = lte_pop (demo_globals 0) 0 0 2 ->
  ladder_sum (demo_globals 0) m 2 3 = exp (-2).
Proof.
  intros H. unfold ladder_sum, for_loop.
  change (Z.to_nat (3 - 2)) with 1%nat. cbn. rewrite H. unfold lte_pop. cbn.
  destruct demo_exp_arguments as [_ ->]. field.
Qed.

(** C1.  [setup_superlevels] run on the test data, first on zeroed
    tables in cycle 0, then again in any cycle and with any level
    populations on the state that the first run left.  The first run
    leaves [superlevel_norm[0] = e^-2], the sum over its ladder.  The second
    run leaves that value plus the sum over the new ladder: the norm is
    added to, not assigned. *)
Theorem setup_superlevels_adds_to_the_norm :
  exists s1,
    setup_superlevels (demo_globals 0) demo_state = Ret 0 s1
    /\ Macro.superlevel_threshold (macromain s1 0) 0 = 2
    /\ Macro.superlevel_norm (macromain s1 0) 0
       = ladder_sum (demo_globals 0) (macromain s1 0) 2 3
    /\ Macro.superlevel_norm (macromain s1 0) 0 = exp (-2)
    /\ (forall wcycle levden,
          exists s2,
            setup_superlevels (demo_globals wcycle) (demo_state_with s1 levden) = Ret 0 s2
            /\ Macro.superlevel_norm (macromain s2 0) 0
               = (exp (-2)
                  + ladder_sum (demo_globals wcycle) (macromain s2 0)
                      (Macro.superlevel_threshold (macromain s2 0) 0) 3)%R
            /\ Macro.superlevel_norm (macromain s2 0) 0
               <> ladder_sum (demo_globals wcycle) (macromain s2 0)
                    (Macro.superlevel_threshold (macromain s2 0) 0) 3).
Proof.
  destruct (setup_cell_spec (demo_globals 0) 0 0 demo_state)
    as (s1 & E1 & _ & _ & _ & Hp1 & _ & Ht1 & Hn1).
  specialize (Ht1 eq_refl). cbn in Ht1.
  assert (Hsum1 : ladder_sum (demo_globals 0) (macromain s1 0) 2 3 = exp (-2))
    by (apply demo_first_ladder_sum, Hp1; cbn; lia).
  assert (Hnorm1 : Macro.superlevel_norm (macromain s1 0) 0 = exp (-2)).
  { rewrite Hn1, Ht1. cbn [ion demo_globals demo_globals_floor demo_ion Z.eqb
                           Ion.first_nlte_level Ion.nlte Z.add].
    rewrite Hsum1. cbn. lra. }
  exists s1. split; [now apply demo_setup_superlevels|]. split; [exact Ht1|].
  split; [now rewrite Hsum1|]. split; [exact Hnorm1|].
  intros wcycle levden.
  destruct (setup_cell_spec (demo_globals wcycle) 0 0 (demo_state_with s1 levden))
    as (s2 & E2 & _ & _ & _ & _ & _ & _ & Hn2).
  exists s2. split; [now apply demo_setup_superlevels|].
  change (macromain (demo_state_with s1 levden) 0) with (macromain s1 0) in Hn2.
  rewrite Hnorm1 in Hn2.
  change (Ion.first_nlte_level (ion (demo_globals wcycle) 0)
          + Ion.nlte (ion (demo_globals wcycle) 0)) with 3 in Hn2.
  split; [exact Hn2|]. rewrite Hn2. pose proof (exp_pos (-2)). lra.
Qed.

(** ** LTE populations of an element *)

Lemma get_lte_matom_populations_eq G pdum levden_array nelem xplasma :
  get_lte_matom_populations G pdum levden_array nelem xplasma
  = (partition_functions G (copy_plasma xplasma pdum) NEBULARMODE_TR ;;
     xdummy_lte <- call_saha G (copy_plasma xplasma pdum)
                     (Plasma.ne (copy_plasma xplasma pdum))
                     (Plasma.t_r (copy_plasma xplasma pdum)) ;;
     matom_element_loop G levden_array nelem (Plasma.rho xplasma * rho2nh G) xdummy_lte ;;
     ret 0).
Proof. reflexivity. Qed.

(** The loop over the ions of the element writes into the array of level
    populations of the scratch structure and into the output array, and
    nowhere else. *)
Lemma matom_element_loop_frame G levden_array nelem nh xdummy_lte s :
  exists s',
    matom_element_loop G levden_array nelem nh xdummy_lte s = Ret tt s'
    /\ (forall a j, a <> levden_array -> a <> Plasma.levden xdummy_lte ->
                    mem s' a j = mem s a j).
Proof.
  unfold matom_element_loop.
  match goal with
  | |- context [forM ?lo ?hi ?body tt s] =>
      destruct (forM_inv
                  (fun (_ : Z) (_ : unit) s' =>
                     forall a j, a <> levden_array -> a <> Plasma.levden xdummy_lte ->
                                 mem s' a j = mem s a j)
                  body lo hi tt s)
        as ([] & s' & E & Hframe)
  end.
  - intros nion [] s0 _ Hframe.
    unfold load at 1.
    rewrite (bind_Ret _ _ s0 (mem s0 (Plasma.density xdummy_lte) nion) s0) by reflexivity.
    unfold load at 1.
    rewrite (bind_Ret _ _ s0 (mem s0 (Plasma.partition xdummy_lte) nion) s0) by reflexivity.
    destruct (get_boltzmann_populations_spec G (Plasma.levden xdummy_lte) nion 1
                (Plasma.t_r xdummy_lte) (mem s0 (Plasma.partition xdummy_lte) nion)
                (Ion.first_levden (ion G nion)) s0)
      as (s1 & E1 & _ & _ & Hframe1 & _).
    rewrite (bind_Ret _ _ _ _ _ E1).
    match goal with
    | |- context [forM ?lo ?hi ?body tt s1] =>
        destruct (forM_inv
                    (fun (_ : Z) (_ : unit) s' =>
                       forall a j, a <> levden_array -> mem s' a j = mem s1 a j)
                    body lo hi tt s1)
          as ([] & s2 & E2 & Hframe2)
    end.
    + intros n [] s3 _ H3. eexists tt, _. split; [reflexivity|].
      intros a j Ha. cbn [mem set_mem].
      rewrite upd_heap_other by (intros [-> _]; easy). now apply H3.
    + reflexivity.
    + exists tt, s2. split; [exact E2|]. intros a j Ha Hb.
      rewrite Hframe2 by exact Ha.
      rewrite Hframe1 by (intros [-> _]; easy). now apply Hframe.
  - reflexivity.
  - now exists s'.
Qed.

(** What [get_lte_matom_populations] does to the partition array of the
    cell it is given: the scratch copy shares that array, so the partition
    functions computed for the copy, in LTE at [t_r], replace those of the
    cell.  The solver is assumed to leave that array and the pointers of
    the scratch structure alone, and the output array and the array that
    the uninitialised [levden] of the scratch structure points to are
    other arrays. *)
Lemma get_lte_matom_populations_partition G pdum levden_array nelem xplasma s :
  (forall x ne t s0,
      Plasma.levden (fst (saha G x ne t s0)) = Plasma.levden x
      /\ forall j, mem (snd (saha G x ne t s0)) (Plasma.partition xplasma) j
                   = mem s0 (Plasma.partition xplasma) j) ->
  Plasma.partition xplasma <> Plasma.levden pdum ->
  Plasma.partition xplasma <> levden_array ->
  exists s',
    get_lte_matom_populations G pdum levden_array nelem xplasma s = Ret 0 s'
    /\ forall nion, 0 <= nion < nions G ->
                    mem s' (Plasma.partition xplasma) nion
                    = partition_value G 1 (BOLTZMANN G * Plasma.t_r xplasma) nion.
Proof.
  intros Hsaha Hpd Hout.
  rewrite get_lte_matom_populations_eq.
  set (xd := copy_plasma xplasma pdum).
  assert (Hsel : mode_selects xd NEBULARMODE_TR (Plasma.t_r xplasma) 1)
    by (left; repeat split).
  destruct (partition_functions_spec G xd _ _ _ s Hsel) as (sp & s1 & Ep & El & E1).
  destruct (partition_loop_spec G xd 0 (nions G) (Plasma.t_r xplasma) 1 s)
    as (sp' & Ep' & _ & _ & _ & Hval).
  rewrite Ep in Ep'. injection Ep' as <-.
  destruct (levels_loop_spec G xd (Plasma.t_r xplasma) 1 sp)
    as (s1' & El' & _ & _ & Hframe1 & _).
  rewrite El in El'. injection El' as <-.
  rewrite (bind_Ret _ _ _ _ _ E1).
  destruct (Hsaha xd (Plasma.ne xd) (Plasma.t_r xd) s1) as [Hlev Hpart].
  destruct (saha G xd (Plasma.ne xd) (Plasma.t_r xd) s1) as [xd' s2] eqn:Es.
  cbn [fst snd] in Hlev, Hpart.
  rewrite (bind_Ret _ _ s1 xd' s2) by (unfold call_saha; now rewrite Es).
  destruct (matom_element_loop_frame G levden_array nelem
              (Plasma.rho xplasma * rho2nh G) xd' s2) as (s3 & E3 & Hframe3).
  rewrite (bind_Ret _ _ _ _ _ E3).
  exists s3. split; [reflexivity|].
  intros nion Hn.
  rewrite Hframe3 by (rewrite ?Hlev; assumption).
  rewrite Hpart.
  change (Plasma.partition xplasma) with (Plasma.partition xd).
  rewrite Hframe1 by (subst xd; cbn [copy_plasma Plasma.partition Plasma.levden]; exact Hpd).
  now apply Hval.
Qed.

(** C2.  [get_lte_matom_populations] run on the test cell, with a solver
    that changes nothing and a scratch structure and an output array that
    share nothing with the cell: the entry of the partition array of the
    cell for ion 1 held 7 before the call and holds 2 after it. *)
Theorem get_lte_matom_populations_rewrites_partition :
  mem demo_state_live (Plasma.partition demo_cell) 1 = 7%R
  /\ exists s',
       get_lte_matom_populations (demo_globals 0) demo_pdum demo_out 0 demo_cell
         demo_state_live = Ret 0 s'
       /\ mem s' (Plasma.partition demo_cell) 1 = 2%R
       /\ mem s' (Plasma.partition demo_cell) 1
          <> mem demo_state_live (Plasma.partition demo_cell) 1.
Proof.
  split; [reflexivity|].
  destruct (get_lte_matom_populations_partition (demo_globals 0) demo_pdum demo_out 0
              demo_cell demo_state_live)
    as (s' & E & Hval).
  - intros x ne t s0. split; [reflexivity|]. intros j. reflexivity.
  - cbn; discriminate.
  - cbn; discriminate.
  - assert (H2 : mem s' (Plasma.partition demo_cell) 1 = 2%R).
    { rewrite (Hval 1) by (cbn; lia). reflexivity. }
    exists s'. split; [exact E|]. split; [exact H2|].
    rewrite H2. cbn. lra.
Qed.

(** ** More on sampling a superlevel *)

(** The state in which the walk of [choose_superlevel_deactivation]
    ends, for weights [w], a target and a ladder from [thr] up to but not
    including [limit]: the running total is the sum of the weights passed,
    every partial sum before the last was below the target, and the walk
    stopped either on the target or at the end of the ladder. *)
Lemma choose_walk_spec (w : Z -> R) (target : R) (thr limit : Z) :
  forall st,
    st = while_iter (Z.to_nat (limit - thr))
           (fun '(run_tot, n) => Rltb run_tot target && (n <? limit))
           (fun '(run_tot, n) => ((run_tot + w n)%R, n + 1))
           (0%R, thr) ->
    thr <= snd st
    /\ (thr <= limit -> snd st <= limit)
    /\ fst st = for_loop thr (snd st) (fun k acc => (acc + w k)%R) 0%R
    /\ (forall k, thr <= k < snd st ->
                  (for_loop thr k (fun k acc => (acc + w k)%R) 0%R < target)%R)
    /\ (~ (fst st < target)%R \/ limit <= snd st).
Proof.
  intros st ->.
  pose proof (choose_walk_fuel_suffices limit target w (0%R, thr)) as Hexit.
  cbn [snd] in Hexit.
  set (cond := fun '((run_tot, n) : R * Z) => Rltb run_tot target && (n <? limit)) in *.
  set (body := fun '((run_tot, n) : R * Z) => ((run_tot + w n)%R, n + 1)) in *.
  assert (Hinv :
            (fun st => thr <= snd st
                       /\ (thr <= limit -> snd st <= limit)
                       /\ fst st = for_loop thr (snd st) (fun k acc => (acc + w k)%R) 0%R
                       /\ (forall k, thr <= k < snd st ->
                                     (for_loop thr k (fun k acc => (acc + w k)%R) 0%R
                                      < target)%R))
              (while_iter (Z.to_nat (limit - thr)) cond body (0%R, thr))).
  { apply while_iter_inv.
    - intros [r n] (H1 & H2 & H3 & H4) Hc. cbn [fst snd] in *.
      subst cond body. cbn beta iota in *. apply andb_prop in Hc as [Hr Hn].
      apply Rltb_true in Hr. apply Z.ltb_lt in Hn. cbn [fst snd].
      split; [lia|]. split; [lia|]. split.
      + rewrite for_loop_snoc by lia. now rewrite <- H3.
      + intros k Hk. destruct (Z.eq_dec k n) as [->|Hne].
        * now rewrite <- H3.
        * apply H4. lia.
    - cbn [fst snd]. split; [lia|]. split; [lia|]. split.
      + now rewrite for_loop_empty by lia.
      + intros k Hk. lia. }
  destruct (while_iter (Z.to_nat (limit - thr)) cond body (0%R, thr)) as [r n].
  cbn [fst snd] in *. destruct Hinv as (H1 & H2 & H3 & H4).
  repeat split; try assumption.
  subst cond. cbn beta iota in Hexit. apply andb_false_iff in Hexit as [Hr|Hn].
  - left. now apply Rltb_false.
  - right. apply Z.ltb_ge in Hn. lia.
Qed.

(** X1.  Whatever the tables and the draw, [choose_superlevel_deactivation]
    returns an index that is not below the stored threshold, leaves the
    arrays and the tables of the cells alone, and never reports that the
    level is not in the superlevel: the only message it can log is the
    failure to choose. *)
Theorem choose_never_below_threshold G xcell uplvl rand s :
  exists n s',
    choose_superlevel_deactivation G xcell uplvl rand s = Ret n s'
    /\ Macro.superlevel_threshold (macromain s (Plasma.nplasma xcell))
         (Config.nion (config G uplvl)) <= n
    /\ mem s' = mem s
    /\ macromain s' = macromain s
    /\ (log s' = log s
        \/ exists run_tot threshold thr z,
             log s' = log s ++ [Error_failed_to_choose run_tot threshold thr z]).
Proof.
  unfold choose_superlevel_deactivation, choose_superlevel_deactivation_z, bind, get_macro.
  set (nion := Config.nion (config G uplvl)).
  set (mplasma := macromain s (Plasma.nplasma xcell)).
  set (thr := Macro.superlevel_threshold mplasma nion).
  set (limit := Ion.first_nlte_level (ion G nion) + Ion.nlte (ion G nion)).
  set (W := while_iter _ _ _ _).
  destruct (choose_walk_spec
              (fun n => (Macro.superlevel_lte_pops mplasma n / Config.g (config G n))%R)
              ((IZR rand + 0.5) / MAXRAND G * Macro.superlevel_norm mplasma nion)%R
              thr limit W eq_refl) as (Hlo & _).
  destruct W as [r n]. cbn [snd] in Hlo.
  set (n' := if n >? thr then n - 1 else n).
  assert (Hn' : thr <= n').
  { subst n'. destruct (Z.gtb_spec n thr); lia. }
  replace (n' <? thr) with false by (symmetry; apply Z.ltb_ge; lia).
  destruct (n' =? limit + 1).
  - eexists n', _. split; [reflexivity|]. split; [exact Hn'|].
    split; [reflexivity|]. split; [reflexivity|]. right. now eexists _, _, _, _.
  - exists n', s. split; [reflexivity|]. split; [exact Hn'|]. auto.
Qed.

(** X2.  When the stored threshold is not past the end of the ladder
    (as for every threshold that [get_superlevel_threshold] returns), the
    sampler is silent and read-only: it logs nothing, changes nothing and
    returns a level from the threshold up to the topmost level of the ion
    (or the threshold itself when the ladder is empty).  A walk that comes
    to the end of the ladder without meeting its target is therefore not
    reported. *)
Theorem choose_is_silent_and_in_range G xcell uplvl rand s :
  Macro.superlevel_threshold (macromain s (Plasma.nplasma xcell))
    (Config.nion (config G uplvl))
  <= Ion.first_nlte_level (ion G (Config.nion (config G uplvl)))
     + Ion.nlte (ion G (Config.nion (config G uplvl))) ->
  exists n,
    choose_superlevel_deactivation G xcell uplvl rand s = Ret n s
    /\ Macro.superlevel_threshold (macromain s (Plasma.nplasma xcell))
         (Config.nion (config G uplvl)) <= n
    /\ n <= Z.max (Macro.superlevel_threshold (macromain s (Plasma.nplasma xcell))
                     (Config.nion (config G uplvl)))
                  (Ion.first_nlte_level (ion G (Config.nion (config G uplvl)))
                   + Ion.nlte (ion G (Config.nion (config G uplvl))) - 1).
Proof.
  unfold choose_superlevel_deactivation, choose_superlevel_deactivation_z, bind, get_macro.
  set (nion := Config.nion (config G uplvl)).
  set (mplasma := macromain s (Plasma.nplasma xcell)).
  set (thr := Macro.superlevel_threshold mplasma nion).
  set (limit := Ion.first_nlte_level (ion G nion) + Ion.nlte (ion G nion)).
  intros Hthr.
  set (W := while_iter _ _ _ _).
  destruct (choose_walk_spec
              (fun n => (Macro.superlevel_lte_pops mplasma n / Config.g (config G n))%R)
              ((IZR rand + 0.5) / MAXRAND G * Macro.superlevel_norm mplasma nion)%R
              thr limit W eq_refl) as (Hlo & Hhi & _).
  destruct W as [r n]. cbn [snd] in Hlo, Hhi. specialize (Hhi Hthr).
  set (n' := if n >? thr then n - 1 else n).
  assert (Hn' : thr <= n' /\ n' <= Z.max thr (limit - 1)).
  { subst n'. destruct (Z.gtb_spec n thr); lia. }
  replace (n' <? thr) with false by (symmetry; apply Z.ltb_ge; lia).
  replace (n' =? limit + 1) with false by (symmetry; apply Z.eqb_neq; lia).
  exists n'. split; [reflexivity|]. exact Hn'.
Qed.

Lemma choose_is_silent_and_in_range_witness :
  exists n,
    choose_superlevel_deactivation ladder_globals demo_cell 0 7 ladder_state
    = Ret n ladder_state
    /\ 2 <= n /\ n <= Z.max 2 (0 + 6 - 1).
Proof.
  apply (choose_is_silent_and_in_range ladder_globals demo_cell 0 7 ladder_state).
  cbn. lia.
Defined.

(** The result of the sampler in terms of the place [n] where its walk
    ends, for a stored threshold that is not past the end of the ladder. *)
Lemma choose_z_after_walk G xcell uplvl z s :
  let nion := Config.nion (config G uplvl) in
  let mplasma := macromain s (Plasma.nplasma xcell) in
  let thr := Macro.superlevel_threshold mplasma nion in
  let limit := Ion.first_nlte_level (ion G nion) + Ion.nlte (ion G nion) in
  let target := (z * Macro.superlevel_norm mplasma nion)%R in
  thr <= limit ->
  exists n,
    choose_superlevel_deactivation_z G xcell uplvl z s
    = Ret (if n >? thr then n - 1 else n) s
    /\ thr <= n <= limit
    /\ (forall k, thr <= k < n -> (ladder_sum G mplasma thr k < target)%R)
    /\ (~ (ladder_sum G mplasma thr n < target)%R \/ n = limit).
Proof.
  intros nion mplasma thr limit target Hthr.
  unfold choose_superlevel_deactivation_z, bind, get_macro.
  fold nion. fold mplasma. fold thr. fold limit. fold target.
  set (W := while_iter _ _ _ _).
  destruct (choose_walk_spec
              (fun n => (Macro.superlevel_lte_pops mplasma n / Config.g (config G n))%R)
              target thr limit W eq_refl) as (Hlo & Hhi & Hsum & Hpart & Hexit).
  destruct W as [r n]. cbn [fst snd] in *. specialize (Hhi Hthr).
  set (n' := if n >? thr then n - 1 else n).
  assert (Hn' : thr <= n' /\ n' <= Z.max thr (limit - 1)).
  { subst n'. destruct (Z.gtb_spec n thr); lia. }
  replace (n' <? thr) with false by (symmetry; apply Z.ltb_ge; lia).
  replace (n' =? limit + 1) with false by (symmetry; apply Z.eqb_neq; lia).
  exists n. split; [reflexivity|]. split; [lia|]. split; [exact Hpart|].
  unfold ladder_sum. rewrite <- Hsum. destruct Hexit as [H|H]; [now left | right; lia].
Qed.

(** X3.  The sampler inverts the cumulative weights.  For a ladder that
    is not empty and a positive target [z * superlevel_norm], the level
    [n] it returns is in the ladder, the weights of the levels before [n]
    sum to less than the target, and either the sum that includes [n]
    reaches the target or [n] is the topmost level and the whole ladder
    sums to less than the target.  Nothing is logged or changed. *)
Theorem choose_inverts_cumulative_weights G xcell uplvl z s :
  let nion := Config.nion (config G uplvl) in
  let mplasma := macromain s (Plasma.nplasma xcell) in
  let thr := Macro.superlevel_threshold mplasma nion in
  let limit := Ion.first_nlte_level (ion G nion) + Ion.nlte (ion G nion) in
  let target := (z * Macro.superlevel_norm mplasma nion)%R in
  thr < limit ->
  (0 < target)%R ->
  exists n,
    choose_superlevel_deactivation_z G xcell uplvl z s = Ret n s
    /\ thr <= n < limit
    /\ (ladder_sum G mplasma thr n < target)%R
    /\ ((target <= ladder_sum G mplasma thr (n + 1))%R
        \/ (n = limit - 1 /\ (ladder_sum G mplasma thr limit < target)%R)).
Proof.
  intros nion mplasma thr limit target Hthr Htarget.
  destruct (choose_z_after_walk G xcell uplvl z s ltac:(fold nion mplasma thr limit; lia))
    as (n & E & Hn & Hpart & Hexit).
  fold nion mplasma thr limit target in E, Hn, Hpart, Hexit.
  assert (Hgt : thr < n).
  { destruct (Z.eq_dec n thr) as [->|]; [|lia]. exfalso.
    unfold ladder_sum in Hexit. rewrite for_loop_empty in Hexit by lia.
    destruct Hexit as [H|H]; [now apply H | lia]. }
  exists (n - 1). split.
  { rewrite E. now replace (n >? thr) with true by (symmetry; apply Z.gtb_lt; lia). }
  split; [lia|]. split; [apply Hpart; lia|].
  replace (n - 1 + 1) with n by lia.
  destruct (Rlt_dec (ladder_sum G mplasma thr n) target) as [Hlt|Hge].
  - right. destruct Hexit as [H|H]; [contradiction|]. subst n. split; [lia | exact Hlt].
  - left. lra.
Qed.

Lemma choose_inverts_cumulative_weights_witness :
  exists n,
    choose_superlevel_deactivation_z ladder_globals demo_cell 0 0.82 ladder_state
    = Ret n ladder_state
    /\ 2 <= n < 0 + 6
    /\ (ladder_sum ladder_globals ladder_macro 2 n < 0.82 * 1)%R
    /\ ((0.82 * 1 <= ladder_sum ladder_globals ladder_macro 2 (n + 1))%R
        \/ (n = 0 + 6 - 1 /\ (ladder_sum ladder_globals ladder_macro 2 (0 + 6) < 0.82 * 1)%R)).
Proof.
  apply (choose_inverts_cumulative_weights ladder_globals demo_cell 0 0.82 ladder_state).
  - cbn. lia.
  - cbn. lra.
Defined.

(** X4.  With the norm that [setup_superlevels] is meant to store, the sum
    of the weights of the ladder, that sum positive and a draw [0 < z <= 1],
    the walk always meets its target: the level [n] returned is the one
    whose span of the cumulative weights contains the target,
    [sum before n < z * norm <= sum up to and including n]. *)
Theorem choose_with_exact_norm G xcell uplvl z s :
  let nion := Config.nion (config G uplvl) in
  let mplasma := macromain s (Plasma.nplasma xcell) in
  let thr := Macro.superlevel_threshold mplasma nion in
  let limit := Ion.first_nlte_level (ion G nion) + Ion.nlte (ion G nion) in
  Macro.superlevel_norm mplasma nion = ladder_sum G mplasma thr limit ->
  (0 < Macro.superlevel_norm mplasma nion)%R ->
  (0 < z <= 1)%R ->
  exists n,
    choose_superlevel_deactivation_z G xcell uplvl z s = Ret n s
    /\ thr <= n < limit
    /\ (ladder_sum G mplasma thr n < z * Macro.superlevel_norm mplasma nion
        <= ladder_sum G mplasma thr (n + 1))%R.
Proof.
  intros nion mplasma thr limit Hnorm Hpos Hz.
  assert (Hthr : thr < limit).
  { destruct (Z.lt_ge_cases thr limit) as [H|H]; [exact H|]. exfalso.
    unfold ladder_sum in Hnorm. rewrite for_loop_empty in Hnorm by lia. lra. }
  assert (Htarget : (0 < z * Macro.superlevel_norm mplasma nion)%R)
    by (apply Rmult_lt_0_compat; lra).
  assert (Hle : (z * Macro.superlevel_norm mplasma nion
                 <= Macro.superlevel_norm mplasma nion)%R).
  { rewrite <- (Rmult_1_l (Macro.superlevel_norm mplasma nion)) at 2.
    apply Rmult_le_compat_r; lra. }
  destruct (choose_z_after_walk G xcell uplvl z s ltac:(fold nion mplasma thr limit; lia))
    as (n & E & Hn & Hpart & Hexit).
  fold nion mplasma thr limit in E, Hn, Hpart, Hexit.
  assert (Hgt : thr < n).
  { destruct (Z.eq_dec n thr) as [->|]; [|lia]. exfalso.
    unfold ladder_sum in Hexit. rewrite for_loop_empty in Hexit by lia.
    destruct Hexit as [H|H]; [now apply H | lia]. }
  exists (n - 1). split.
  { rewrite E. now replace (n >? thr) with true by (symmetry; apply Z.gtb_lt; lia). }
  split; [lia|]. split; [apply Hpart; lia|].
  replace (n - 1 + 1) with n by lia.
  destruct Hexit as [H|H]; [lra|]. subst n. rewrite <- Hnorm. exact Hle.
Qed.

Lemma ladder_state_norm :
  Macro.superlevel_norm ladder_macro 0 = ladder_sum ladder_globals ladder_macro 2 (0 + 6).
Proof.
  unfold ladder_sum, for_loop. change (Z.to_nat (0 + 6 - 2)) with 4%nat. cbn. lra.
Qed.

Lemma choose_with_exact_norm_witness :
  exists n,
    choose_superlevel_deactivation_z ladder_globals demo_cell 0 0.82 ladder_state
    = Ret n ladder_state
    /\ 2 <= n < 0 + 6
    /\ (ladder_sum ladder_globals ladder_macro 2 n < 0.82 * 1
        <= ladder_sum ladder_globals ladder_macro 2 (n + 1))%R.
Proof.
  apply (choose_with_exact_norm ladder_globals demo_cell 0 0.82 ladder_state).
  - exact ladder_state_norm.
  - cbn. lra.
  - lra.
Defined.

(** X5.  A target that is not positive (a zero norm, as in tables that
    [setup_superlevels] has not filled yet) ends the walk before it
    starts: the sampler returns the stored threshold itself. *)
Theorem choose_with_no_target_returns_threshold G xcell uplvl z s :
  let nion := Config.nion (config G uplvl) in
  let mplasma := macromain s (Plasma.nplasma xcell) in
  let thr := Macro.superlevel_threshold mplasma nion in
  let limit := Ion.first_nlte_level (ion G nion) + Ion.nlte (ion G nion) in
  thr <= limit ->
  (z * Macro.superlevel_norm mplasma nion <= 0)%R ->
  choose_superlevel_deactivation_z G xcell uplvl z s = Ret thr s.
Proof.
  intros nion mplasma thr limit Hthr Htarget.
  destruct (choose_z_after_walk G xcell uplvl z s ltac:(fold nion mplasma thr limit; lia))
    as (n & E & Hn & Hpart & _).
  fold nion mplasma thr limit in E, Hn, Hpart.
  destruct (Z.eq_dec n thr) as [->|Hne].
  - rewrite E. now replace (thr >? thr) with false
      by (rewrite Z.gtb_ltb; symmetry; apply Z.ltb_irrefl).
  - exfalso. specialize (Hpart thr ltac:(lia)).
    unfold ladder_sum in Hpart. rewrite for_loop_empty in Hpart by lia. lra.
Qed.

Lemma choose_with_no_target_returns_threshold_witness :
  choose_superlevel_deactivation_z (demo_globals 0) demo_cell 0 0.5 demo_state
  = Ret 0 demo_state.
Proof.
  apply (choose_with_no_target_returns_threshold (demo_globals 0) demo_cell 0 0.5 demo_state).
  - cbn. lia.
  - cbn. lra.
Defined.

(** ** More on the superlevel threshold *)

(** X6.  On a later cycle the threshold that [get_superlevel_threshold]
    returns bounds a run of levels that are all close to LTE: every level
    from the threshold to the topmost level has its departure coefficient
    strictly within the band, and the level just below the threshold is
    either out of the band or at the floor; for a ladder longer than the
    floor the threshold is above the floor.  The function reads the
    populations and the LTE ladder without changing them and logs one
    line, which shows the threshold before the final increment. *)
Theorem threshold_bounds_levels_in_band G xplasma nion s :
  Geo.wcycle (geo G) <> 0 ->
  exists thr s',
    get_superlevel_threshold G xplasma nion s = Ret thr s'
    /\ mem s' = mem s
    /\ macromain s' = macromain s
    /\ log s' = log s ++ [Log_threshold (thr - 1) (Ion.first_nlte_level (ion G nion))
                            (Ion.first_nlte_level (ion G (nion + 1)))]
    /\ thr <= Ion.first_nlte_level (ion G nion) + Ion.nlte (ion G nion)
    /\ (LOWEST_SUPERLEVEL_THRESHOLD G < Ion.nlte (ion G nion) ->
        Ion.first_nlte_level (ion G nion) + LOWEST_SUPERLEVEL_THRESHOLD G < thr)
    /\ (forall k, thr <= k <= Ion.first_nlte_level (ion G nion) + Ion.nlte (ion G nion) - 1 ->
                  in_band (dep_coef_at G xplasma nion s k))
    /\ (thr - 1 - Ion.first_nlte_level (ion G nion) <= LOWEST_SUPERLEVEL_THRESHOLD G
        \/ ~ in_band (dep_coef_at G xplasma nion s (thr - 1))).
Proof.
  intros Hw. unfold get_superlevel_threshold.
  apply Z.eqb_neq in Hw. rewrite Hw.
  unfold bind, get_macro, get_mem, Log, ret.
  set (ground := Ion.first_nlte_level (ion G nion)).
  set (L := LOWEST_SUPERLEVEL_THRESHOLD G).
  set (top := Ion.nlte (ion G nion) + ground - 1).
  set (cond := fun '(threshold, n, dep_coef) => _).
  set (body := fun '(threshold, n, dep_coef) => _).
  set (st0 := (top, 0, _)).
  set (fuel := Z.to_nat _).
  assert (Hexit : cond (while_iter fuel cond body st0) = false).
  { apply (while_iter_exit (fun st => fst (fst st) - ground - L)).
    - intros [[t n] d] Hc. subst cond body. cbn beta iota in *. cbn [fst].
      apply andb_prop in Hc as [_ Hc]. apply Z.gtb_lt in Hc. lia.
    - subst st0 fuel. cbn [fst]. lia. }
  assert (Hinv :
            (fun st => fst (fst st) <= top
                       /\ (L < Ion.nlte (ion G nion) -> ground + L <= fst (fst st))
                       /\ snd (fst st) = top - fst (fst st)
                       /\ snd st = dep_coef_at G xplasma nion s (fst (fst st))
                       /\ (forall k, fst (fst st) < k <= top ->
                                     in_band (dep_coef_at G xplasma nion s k)))
              (while_iter fuel cond body st0)).
  { apply while_iter_inv.
    - intros [[t n] d] (H1 & H0 & H2 & H3 & H4) Hc. cbn [fst snd] in *.
      subst cond body. cbn beta iota in *.
      apply andb_prop in Hc as [Hc Hc3]. apply andb_prop in Hc as [Hc1 Hc2].
      apply Rltb_true in Hc1, Hc2. apply Z.gtb_lt in Hc3. cbn [fst snd].
      split; [lia|]. split; [lia|]. split; [lia|]. split.
      + unfold dep_coef_at. fold ground. subst n.
        replace (Ion.first_levden (ion G nion) + Ion.nlte (ion G nion) - 1 - (top - t + 1))
          with (Ion.first_levden (ion G nion) + (t - 1 - ground)) by (subst top; lia).
        reflexivity.
      + intros k Hk. destruct (Z.eq_dec k t) as [->|Hne].
        * rewrite <- H3. split; assumption.
        * apply H4. lia.
    - subst st0. cbn [fst snd]. split; [lia|]. split; [subst top; lia|].
      split; [lia|]. split.
      + unfold dep_coef_at. fold ground.
        replace (Ion.first_levden (ion G nion) + (top - ground))
          with (Ion.first_levden (ion G nion) + Ion.nlte (ion G nion) - 1)
          by (subst top; lia).
        reflexivity.
      + intros k Hk. lia. }
  destruct (while_iter fuel cond body st0) as [[t n] d]. cbn [fst snd] in Hinv.
  destruct Hinv as (H1 & H0 & H2 & H3 & H4).
  exists (t + 1). eexists. split; [reflexivity|]. cbn [mem macromain log add_log].
  split; [reflexivity|]. split; [reflexivity|].
  replace (t + 1 - 1) with t by lia.
  split; [reflexivity|]. split; [subst top; lia|].
  split; [intros HL; specialize (H0 HL); lia|]. split.
  - intros k Hk. apply H4. subst top. lia.
  - subst cond. cbn beta iota in Hexit. rewrite <- H3.
    apply andb_false_iff in Hexit as [Hexit|Hexit].
    + right. intros [Hb1 Hb2].
      apply andb_false_iff in Hexit as [Hexit|Hexit]; apply Rltb_false in Hexit; contradiction.
    + left. destruct (Z.gtb_spec (t - ground) L); [discriminate | lia].
Qed.

Lemma threshold_bounds_levels_in_band_witness :
  exists thr s',
    get_superlevel_threshold (demo_globals 1) demo_cell 0 demo_state_later = Ret thr s'
    /\ mem s' = mem demo_state_later
    /\ macromain s' = macromain demo_state_later
    /\ log s' = log demo_state_later ++ [Log_threshold (thr - 1) 0 0]
    /\ thr <= 0 + 3
    /\ (1 < 3 -> 0 + 1 < thr)
    /\ (forall k, thr <= k <= 0 + 3 - 1 ->
                  in_band (dep_coef_at (demo_globals 1) demo_cell 0 demo_state_later k))
    /\ (thr - 1 - 0 <= 1
        \/ ~ in_band (dep_coef_at (demo_globals 1) demo_cell 0 demo_state_later (thr - 1))).
Proof.
  apply (threshold_bounds_levels_in_band (demo_globals 1) demo_cell 0 demo_state_later).
  cbn. lia.
Defined.

(** ** More on the partition functions *)

(** The Boltzmann sum of terms [w * f] is the start plus [w] times what
    the sum of the terms [f] adds to its own start. *)
Lemma scaled_sum (f1 f2 : Z -> R) (w : R) (k : nat) :
  (forall m, f1 m = (w * f2 m)%R) ->
  forall i m z1 z2,
    (snd (for_iter k i (fun _ '((m, z) : Z * R) => ((m + 1)%Z, (z + f1 (m + 1)%Z)%R)) (m, z1)) - z1
     = w * (snd (for_iter k i (fun _ '((m, z) : Z * R) => ((m + 1)%Z, (z + f2 (m + 1)%Z)%R)) (m, z2)) - z2))%R.
Proof.
  intros Hf. induction k as [|k IH]; intros i m z1 z2; cbn [for_iter snd]; [lra|].
  specialize (IH (i + 1) (m + 1) (z1 + f1 (m + 1)%Z)%R (z2 + f2 (m + 1)%Z)%R).
  rewrite Hf in *. lra.
Qed.

(** A sum of terms that are not negative does not go below its start. *)
Lemma growing_sum (f : Z -> R) (k : nat) :
  (forall m, (0 <= f m)%R) ->
  forall i m z,
    (z <= snd (for_iter k i (fun _ '((m, z) : Z * R) => ((m + 1)%Z, (z + f (m + 1)%Z)%R)) (m, z)))%R.
Proof.
  intros Hf. induction k as [|k IH]; intros i m z; cbn [for_iter snd]; [lra|].
  specialize (IH (i + 1) (m + 1) (z + f (m + 1)%Z)%R). specialize (Hf (m + 1)). lra.
Qed.

Lemma partition_value_affine G w kt nion :
  partition_value G w kt nion
  = (partition_ground_weight G nion
     + w * (partition_value G 1 kt nion - partition_ground_weight G nion))%R.
Proof.
  unfold partition_value, partition_ground_weight, for_loop.
  destruct (_ >? 0).
  - match goal with
    | |- snd (for_iter ?k ?i _ (?m, ?z)) = _ =>
        pose proof (scaled_sum
                      (fun m' => (w * Config.g (config G m')
                                  * exp ((- Config.ex (config G m')
                                          + Config.ex (config G m)) / kt))%R)
                      (fun m' => (1 * Config.g (config G m')
                                  * exp ((- Config.ex (config G m')
                                          + Config.ex (config G m)) / kt))%R)
                      w k ltac:(intros; cbv beta; ring) i m z z) as H
    end.
    cbv beta in H. lra.
  - destruct (_ >? 0); [|lra].
    match goal with
    | |- snd (for_iter ?k ?i _ (?m, ?z)) = _ =>
        pose proof (scaled_sum
                      (fun m' => (w * Config.g (config G m')
                                  * exp ((- Config.ex (config G m')
                                          + Config.ex (config G m)) / kt))%R)
                      (fun m' => (1 * Config.g (config G m')
                                  * exp ((- Config.ex (config G m')
                                          + Config.ex (config G m)) / kt))%R)
                      w k ltac:(intros; cbv beta; ring) i m z z) as H
    end.
    cbv beta in H. lra.
Qed.

Lemma partition_value_lower_bound G w kt nion :
  (0 <= w)%R ->
  (forall m, (0 <= Config.g (config G m))%R) ->
  (partition_ground_weight G nion <= partition_value G w kt nion)%R.
Proof.
  intros Hw Hg.
  assert (Hterm : forall m0 m, (0 <= w * Config.g (config G m)
                                     * exp ((- Config.ex (config G m)
                                             + Config.ex (config G m0)) / kt))%R).
  { intros m0 m. apply Rmult_le_pos; [apply Rmult_le_pos; auto|]. left. apply exp_pos. }
  unfold partition_value, partition_ground_weight, for_loop.
  destruct (_ >? 0).
  - exact (growing_sum _ _ (Hterm (Ion.firstlevel (ion G nion))) _ _ _).
  - destruct (_ >? 0); [|lra].
    exact (growing_sum _ _ (Hterm (Ion.first_nlte_level (ion G nion))) _ _ _).
Qed.

(** The partition function that [partition_functions] leaves for an ion. *)
Lemma partition_functions_partition G xplasma mode t weight nion s :
  mode_selects xplasma mode t weight ->
  Plasma.partition xplasma <> Plasma.levden xplasma ->
  0 <= nion < nions G ->
  exists s',
    partition_functions G xplasma mode s = Ret 0 s'
    /\ mem s' (Plasma.partition xplasma) nion
       = partition_value G weight (BOLTZMANN G * t) nion.
Proof.
  intros Hsel Hpl Hn.
  destruct (partition_functions_spec G xplasma mode t weight s Hsel)
    as (sp & s' & Ep & El & E).
  destruct (partition_loop_spec G xplasma 0 (nions G) t weight s)
    as (sp' & Ep' & _ & _ & _ & Hval).
  rewrite Ep in Ep'. injection Ep' as <-.
  destruct (levels_loop_spec G xplasma t weight sp) as (s1 & El' & _ & _ & Hframe & _).
  rewrite El in El'. injection El' as <-.
  exists s'. split; [exact E|]. rewrite (Hframe _ _ Hpl). now apply Hval.
Qed.

(** X7.  The partition function of the dilute mode is affine in the
    dilution factor: for every ion it is the weight of the ground level
    plus [w] times what the excited levels add to the LTE partition
    function at [t_r].  With [w = 1] the two modes store the same value,
    and with [w = 0] the dilute mode stores the ground weight. *)
Theorem dilute_partition_function_is_affine G xplasma nion s :
  Plasma.partition xplasma <> Plasma.levden xplasma ->
  0 <= nion < nions G ->
  exists s0 s2,
    partition_functions G xplasma NEBULARMODE_TR s = Ret 0 s0
    /\ partition_functions G xplasma NEBULARMODE_ML93 s = Ret 0 s2
    /\ mem s2 (Plasma.partition xplasma) nion
       = (partition_ground_weight G nion
          + Plasma.w xplasma
            * (mem s0 (Plasma.partition xplasma) nion - partition_ground_weight G nion))%R.
Proof.
  intros Hpl Hn.
  destruct (partition_functions_partition G xplasma NEBULARMODE_TR
              (Plasma.t_r xplasma) 1 nion s) as (s0 & E0 & H0);
    [left; repeat split | assumption | assumption |].
  destruct (partition_functions_partition G xplasma NEBULARMODE_ML93
              (Plasma.t_r xplasma) (Plasma.w xplasma) nion s) as (s2 & E2 & H2);
    [do 2 right; left; repeat split | assumption | assumption |].
  exists s0, s2. split; [exact E0|]. split; [exact E2|].
  rewrite H2, H0. apply partition_value_affine.
Qed.

Lemma dilute_partition_function_is_affine_witness :
  exists s0 s2,
    partition_functions (demo_globals 0) demo_cell NEBULARMODE_TR demo_state = Ret 0 s0
    /\ partition_functions (demo_globals 0) demo_cell NEBULARMODE_ML93 demo_state = Ret 0 s2
    /\ mem s2 (Plasma.partition demo_cell) 0
       = (partition_ground_weight (demo_globals 0) 0%Z
          + Plasma.w demo_cell
            * (mem s0 (Plasma.partition demo_cell) 0%Z
               - partition_ground_weight (demo_globals 0) 0%Z))%R.
Proof.
  apply (dilute_partition_function_is_affine (demo_globals 0) demo_cell 0 demo_state).
  - cbn; discriminate.
  - cbn; lia.
Defined.

(** X8.  With statistical weights and a dilution factor that are not
    negative, the partition function that [partition_functions] stores for
    an ion is at least the weight its sum starts from (the weight of the
    first level, or the weight of the ion when it has no levels), in every
    mode and at every temperature. *)
Theorem partition_function_lower_bound G xplasma mode t weight nion s :
  mode_selects xplasma mode t weight ->
  (0 <= weight)%R ->
  (forall m, (0 <= Config.g (config G m))%R) ->
  Plasma.partition xplasma <> Plasma.levden xplasma ->
  0 <= nion < nions G ->
  exists s',
    partition_functions G xplasma mode s = Ret 0 s'
    /\ (partition_ground_weight G nion <= mem s' (Plasma.partition xplasma) nion)%R.
Proof.
  intros Hsel Hw Hg Hpl Hn.
  destruct (partition_functions_partition G xplasma mode t weight nion s Hsel Hpl Hn)
    as (s' & E & H).
  exists s'. split; [exact E|]. rewrite H. now apply partition_value_lower_bound.
Qed.

Lemma demo_config_weights m : (0 <= Config.g (config (demo_globals 0) m))%R.
Proof.
  cbn [config demo_globals demo_globals_floor]. unfold demo_config.
  repeat (destruct (_ =? _)); cbn; lra.
Qed.

Lemma partition_function_lower_bound_witness :
  exists s',
    partition_functions (demo_globals 0) demo_cell 0 demo_state = Ret 0 s'
    /\ (partition_ground_weight (demo_globals 0) 0%Z
        <= mem s' (Plasma.partition demo_cell) 0%Z)%R.
Proof.
  apply (partition_function_lower_bound (demo_globals 0) demo_cell 0 1 1 0 demo_state).
  - exact demo_mode_selects.
  - lra.
  - exact demo_config_weights.
  - cbn; discriminate.
  - cbn; lia.
Defined.

(** ** More on the level populations *)

(** X9.  [get_boltzmann_populations] writes the entry [nlevden] of the
    array it is given and the [nlte - 1] entries that follow, and nothing
    else: no other entry of that array, no other array, no table, no log.
    The first entry is [g / z] for the first reduced level of the ion, even
    for an ion without reduced levels, and each entry after it is that
    first entry times [w * g_n * exp (-(ex_n - ex_0) / kT) / z]. *)
Theorem get_boltzmann_populations_writes G levden_array nion w t z nlevden s :
  exists s',
    get_boltzmann_populations G levden_array nion w t z nlevden s = Ret 0 s'
    /\ log s' = log s
    /\ macromain s' = macromain s
    /\ (forall a j, ~ (a = levden_array
                       /\ nlevden <= j < nlevden + Z.max 1 (Ion.nlte (ion G nion))) ->
                    mem s' a j = mem s a j)
    /\ mem s' levden_array nlevden
       = (Config.g (config G (Ion.first_nlte_level (ion G nion))) / z)%R
    /\ (forall n, 1 <= n < Ion.nlte (ion G nion) ->
                  mem s' levden_array (nlevden + n)
                  = (mem s' levden_array nlevden
                     * (w * Config.g (config G (Ion.first_nlte_level (ion G nion) + n))
                        * exp ((- Config.ex (config G (Ion.first_nlte_level (ion G nion) + n))
                                + Config.ex (config G (Ion.first_nlte_level (ion G nion))))
                               / (BOLTZMANN G * t))
                        / z))%R).
Proof.
  destruct (get_boltzmann_populations_spec G levden_array nion w t z nlevden s)
    as (s' & E & Hl & Hm & Hframe & Hg & Hval).
  exists s'. split; [exact E|]. split; [exact Hl|]. split; [exact Hm|]. split; [|split].
  - intros a j Hout. apply Hframe. intros [-> Hj]. apply Hout. split; [easy|lia].
  - exact Hg.
  - intros n Hn. rewrite (Hval n Hn), Hg. unfold boltzmann_population, Rdiv. ring.
Qed.

(** X10.  [levels] writes populations only: for a mode of the table it
    returns 0, logs nothing, leaves the tables of the cells alone, and
    changes no entry of the store except entries of [levden] that belong
    to an ion whose populations it computes.  In particular the entries of
    an ion that the macro-atom guard excludes (and of an ion without
    reduced levels) keep their values, unless a computed ion shares them. *)
Theorem levels_writes_computed_populations_only G xplasma mode t weight s :
  mode_selects xplasma mode t weight ->
  exists s',
    levels G xplasma mode s = Ret 0 s'
    /\ log s' = log s
    /\ macromain s' = macromain s
    /\ (forall a j,
          (a = Plasma.levden xplasma ->
           forall nion, 0 <= nion < nions G -> levels_computes G nion = true ->
                        ~ (Ion.first_levden (ion G nion) <= j
                           < Ion.first_levden (ion G nion) + Ion.nlte (ion G nion))) ->
          mem s' a j = mem s a j).
Proof.
  intros Hsel. rewrite (levels_eq _ _ _ _ _ _ Hsel). unfold levels_loop.
  match goal with
  | |- context [bind (forM 0 ?hi ?body tt) _] =>
      destruct (forM_inv
                  (fun i (_ : unit) s' =>
                     log s' = log s
                     /\ macromain s' = macromain s
                     /\ (forall a j,
                           (a = Plasma.levden xplasma ->
                            forall nion, 0 <= nion < i -> levels_computes G nion = true ->
                                         ~ (Ion.first_levden (ion G nion) <= j
                                            < Ion.first_levden (ion G nion)
                                              + Ion.nlte (ion G nion))) ->
                           mem s' a j = mem s a j))
                  body 0 hi tt s)
        as ([] & s' & E & Hl & Hm & Hframe)
  end.
  - intros i [] s0 Hi (Hl & Hm & Hframe).
    destruct (levels_body_spec G xplasma t weight i s0)
      as (s1 & E1 & Hl1 & Hm1 & Hframe1 & _).
    exists tt, s1. split; [exact E1|]. split; [congruence|]. split; [congruence|].
    intros a j Hout. rewrite Hframe1.
    + apply Hframe. intros Ha nion Hn. apply Hout; [exact Ha | lia].
    + intros (Ha & Hc & Hj). exact (Hout Ha i ltac:(lia) Hc Hj).
  - repeat split; reflexivity.
  - rewrite (bind_Ret _ _ _ _ _ E). exists s'. split; [reflexivity|].
    split; [exact Hl|]. split; [exact Hm|].
    intros a j Hout. apply Hframe. intros Ha nion Hn. apply Hout; [exact Ha | lia].
Qed.

Lemma levels_writes_computed_populations_only_witness :
  exists s',
    levels (demo_globals 0) demo_cell 0 demo_state = Ret 0 s'
    /\ log s' = log demo_state
    /\ macromain s' = macromain demo_state
    /\ (forall a j,
          (a = Plasma.levden demo_cell ->
           forall nion, 0 <= nion < nions (demo_globals 0) ->
                        levels_computes (demo_globals 0) nion = true ->
                        ~ (Ion.first_levden (ion (demo_globals 0) nion) <= j
                           < Ion.first_levden (ion (demo_globals 0) nion)
                             + Ion.nlte (ion (demo_globals 0) nion))) ->
          mem s' a j = mem demo_state a j).
Proof.
  exact (levels_writes_computed_populations_only (demo_globals 0) demo_cell 0 1 1
           demo_state demo_mode_selects).
Defined.

(** X11.  The ground population is a fraction.  With weights and a
    dilution factor that are not negative, an ion whose populations
    [levels] computes, whose first reduced level has a positive weight
    that is also the weight its partition sum starts from, and whose
    entries of [levden] no later ion shares, is left by
    [partition_functions] with [0 < levden[ground] <= 1], in every mode
    and at every temperature. *)
Theorem ground_population_is_a_fraction G xplasma mode t weight nion s :
  mode_selects xplasma mode t weight ->
  (0 <= weight)%R ->
  (forall m, (0 <= Config.g (config G m))%R) ->
  Plasma.partition xplasma <> Plasma.levden xplasma ->
  0 <= nion < nions G ->
  levels_computes G nion = true ->
  (forall j, nion < j < nions G -> levels_computes G j = true -> levden_disjoint G nion j) ->
  (0 < Config.g (config G (Ion.first_nlte_level (ion G nion))))%R ->
  partition_ground_weight G nion = Config.g (config G (Ion.first_nlte_level (ion G nion))) ->
  exists s',
    partition_functions G xplasma mode s = Ret 0 s'
    /\ (0 < mem s' (Plasma.levden xplasma) (Ion.first_levden (ion G nion)) <= 1)%R.
Proof.
  intros Hsel Hw Hg Hpl Hn Hc Hdis Hpos Hsame.
  destruct (partition_functions_levden G xplasma mode t weight nion s Hsel Hpl Hn Hc Hdis)
    as (s' & E & _ & Hground & _).
  pose proof (partition_value_lower_bound G weight (BOLTZMANN G * t) nion Hw Hg) as Hlow.
  rewrite Hsame in Hlow.
  exists s'. split; [exact E|]. rewrite Hground.
  set (g0 := Config.g (config G (Ion.first_nlte_level (ion G nion)))) in *.
  set (z := partition_value G weight (BOLTZMANN G * t) nion) in *.
  assert (Hz : (0 < z)%R) by lra.
  split.
  - apply Rdiv_lt_0_compat; assumption.
  - apply (Rmult_le_reg_r z); [exact Hz|]. unfold Rdiv.
    rewrite Rmult_assoc, Rinv_l by lra. lra.
Qed.

Lemma ground_population_is_a_fraction_witness :
  exists s',
    partition_functions (demo_globals 0) demo_cell 0 demo_state = Ret 0 s'
    /\ (0 < mem s' (Plasma.levden demo_cell) (Ion.first_levden (ion (demo_globals 0) 0))
        <= 1)%R.
Proof.
  apply (ground_population_is_a_fraction (demo_globals 0) demo_cell 0 1 1 0 demo_state).
  - exact demo_mode_selects.
  - lra.
  - exact demo_config_weights.
  - cbn; discriminate.
  - cbn; lia.
  - reflexivity.
  - intros j Hj. assert (j = 1) as -> by (cbn in Hj; lia). discriminate.
  - cbn. lra.
  - reflexivity.
Defined.

(** ** More on the LTE populations of an element *)

(** An entry of the output array that holds zero holds zero after the
    loop over the ions of the element: the loop only multiplies what the
    output array holds. *)
Lemma matom_element_loop_keeps_zero G levden_array nelem nh xdummy_lte j s :
  levden_array <> Plasma.levden xdummy_lte ->
  mem s levden_array j = 0%R ->
  exists s',
    matom_element_loop G levden_array nelem nh xdummy_lte s = Ret tt s'
    /\ mem s' levden_array j = 0%R.
Proof.
  intros Hout Hzero. unfold matom_element_loop.
  match goal with
  | |- context [forM ?lo ?hi ?body tt s] =>
      destruct (forM_inv
                  (fun (_ : Z) (_ : unit) s' => mem s' levden_array j = 0%R)
                  body lo hi tt s)
        as ([] & s' & E & Hz)
  end.
  - intros nion [] s0 _ H0.
    unfold load at 1.
    rewrite (bind_Ret _ _ s0 (mem s0 (Plasma.density xdummy_lte) nion) s0) by reflexivity.
    unfold load at 1.
    rewrite (bind_Ret _ _ s0 (mem s0 (Plasma.partition xdummy_lte) nion) s0) by reflexivity.
    destruct (get_boltzmann_populations_spec G (Plasma.levden xdummy_lte) nion 1
                (Plasma.t_r xdummy_lte) (mem s0 (Plasma.partition xdummy_lte) nion)
                (Ion.first_levden (ion G nion)) s0)
      as (s1 & E1 & _ & _ & Hframe1 & _).
    rewrite (bind_Ret _ _ _ _ _ E1).
    assert (H1 : mem s1 levden_array j = 0%R).
    { rewrite Hframe1 by (intros [-> _]; easy). exact H0. }
    match goal with
    | |- context [forM ?lo ?hi ?body tt s1] =>
        destruct (forM_inv
                    (fun (_ : Z) (_ : unit) s' => mem s' levden_array j = 0%R)
                    body lo hi tt s1)
          as ([] & s2 & E2 & H2)
    end.
    + intros n [] s3 _ H3. eexists tt, _. split; [reflexivity|].
      cbn [mem set_mem]. destruct (Z.eq_dec j n) as [->|Hne].
      * rewrite upd_heap_same, H3. ring.
      * rewrite upd_heap_other by (intros [_ ->]; easy). exact H3.
    + exact H1.
    + now exists tt, s2.
  - exact Hzero.
  - now exists s'.
Qed.

(** X12.  [get_lte_matom_populations] does not store the populations it
    computes in the array it is asked to fill: they go to the array that
    [levden] of the scratch structure points to, and the output array is
    only multiplied by the ion fractions.  An entry of the output array
    that holds zero at entry holds zero on return.  The output array is
    assumed to be another array than the partition functions of the cell
    and than the one [levden] of the scratch structure points to, and the
    solver to leave the output array and that pointer alone. *)
Theorem get_lte_matom_populations_keeps_zero G pdum levden_array nelem xplasma j s :
  (forall x ne t s0,
      Plasma.levden (fst (saha G x ne t s0)) = Plasma.levden x
      /\ forall i, mem (snd (saha G x ne t s0)) levden_array i = mem s0 levden_array i) ->
  levden_array <> Plasma.partition xplasma ->
  levden_array <> Plasma.levden pdum ->
  mem s levden_array j = 0%R ->
  exists s',
    get_lte_matom_populations G pdum levden_array nelem xplasma s = Ret 0 s'
    /\ mem s' levden_array j = 0%R.
Proof.
  intros Hsaha Hpart Hlev Hzero.
  rewrite get_lte_matom_populations_eq.
  set (xd := copy_plasma xplasma pdum).
  assert (Hsel : mode_selects xd NEBULARMODE_TR (Plasma.t_r xplasma) 1)
    by (left; repeat split).
  destruct (partition_functions_spec G xd _ _ _ s Hsel) as (sp & s1 & Ep & El & E1).
  destruct (partition_loop_spec G xd 0 (nions G) (Plasma.t_r xplasma) 1 s)
    as (sp' & Ep' & _ & _ & Hframep & _).
  rewrite Ep in Ep'. injection Ep' as <-.
  destruct (levels_loop_spec G xd (Plasma.t_r xplasma) 1 sp)
    as (s1' & El' & _ & _ & Hframe1 & _).
  rewrite El in El'. injection El' as <-.
  rewrite (bind_Ret _ _ _ _ _ E1).
  assert (H1 : mem s1 levden_array j = 0%R).
  { rewrite Hframe1 by exact Hlev. rewrite Hframep by (intros [-> _]; now apply Hpart).
    exact Hzero. }
  destruct (Hsaha xd (Plasma.ne xd) (Plasma.t_r xd) s1) as [Hl Hkeep].
  destruct (saha G xd (Plasma.ne xd) (Plasma.t_r xd) s1) as [xd' s2] eqn:Es.
  cbn [fst snd] in Hl, Hkeep.
  rewrite (bind_Ret _ _ s1 xd' s2) by (unfold call_saha; now rewrite Es).
  destruct (matom_element_loop_keeps_zero G levden_array nelem
              (Plasma.rho xplasma * rho2nh G) xd' j s2) as (s3 & E3 & H3).
  - rewrite Hl. exact Hlev.
  - rewrite Hkeep. exact H1.
  - rewrite (bind_Ret _ _ _ _ _ E3). exists s3. split; [reflexivity | exact H3].
Qed.

Lemma get_lte_matom_populations_keeps_zero_witness :
  exists s',
    get_lte_matom_populations (demo_globals 0) demo_pdum demo_out 0 demo_cell
      demo_state_live = Ret 0 s'
    /\ mem s' demo_out 1 = 0%R.
Proof.
  apply (get_lte_matom_populations_keeps_zero (demo_globals 0) demo_pdum demo_out 0
           demo_cell 1 demo_state_live).
  - intros x ne t s0. split; [reflexivity|]. intros i. reflexivity.
  - cbn; discriminate.
  - cbn; discriminate.
  - reflexivity.
Defined.

(** ** More on building the superlevels *)

(** One turn of [setup_superlevels] leaves the thresholds and the norms
    of the other ions as they were. *)
Lemma setup_cell_others G nion nplasma s :
  exists s',
    setup_cell G nion nplasma s = Ret tt s'
    /\ forall i, i <> nion ->
                 Macro.superlevel_threshold (macromain s' nplasma) i
                 = Macro.superlevel_threshold (macromain s nplasma) i
                 /\ Macro.superlevel_norm (macromain s' nplasma) i
                    = Macro.superlevel_norm (macromain s nplasma) i.
Proof.
  unfold setup_cell.
  set (ground := Ion.first_nlte_level (ion G nion)).
  set (hi := ground + Ion.nlte (ion G nion)).
  set (s1 := set_macro s nplasma
               (Macro.mk (upd (Macro.superlevel_lte_pops (macromain s nplasma)) ground 1%R)
                  (Macro.superlevel_threshold (macromain s nplasma))
                  (Macro.superlevel_norm (macromain s nplasma)))).
  rewrite (bind_Ret _ _ s tt s1) by reflexivity.
  match goal with
  | |- context [bind (forM ?lo ?hi ?body tt) _] =>
      destruct (forM_inv
                  (fun (_ : Z) (_ : unit) s' =>
                     Macro.superlevel_threshold (macromain s' nplasma)
                     = Macro.superlevel_threshold (macromain s nplasma)
                     /\ Macro.superlevel_norm (macromain s' nplasma)
                        = Macro.superlevel_norm (macromain s nplasma))
                  body lo hi tt s1)
        as ([] & s2 & E2 & Ht2 & Hn2)
  end.
  { intros i [] s0 _ (Ht & Hn). eexists tt, _. split; [reflexivity|].
    cbn [macromain set_macro]. rewrite upd_same.
    cbn [Macro.superlevel_threshold Macro.superlevel_norm]. split; assumption. }
  { subst s1. cbn [macromain set_macro]. rewrite upd_same. split; reflexivity. }
  rewrite (bind_Ret _ _ _ _ _ E2).
  destruct (get_superlevel_threshold_returns G (plasmamain G nplasma) nion s2)
    as (thr & s3 & E3 & _ & Hmm3 & _).
  rewrite (bind_Ret _ _ _ _ _ E3).
  set (s4 := set_macro s3 nplasma
               (Macro.mk (Macro.superlevel_lte_pops (macromain s3 nplasma))
                  (upd (Macro.superlevel_threshold (macromain s3 nplasma)) nion thr)
                  (Macro.superlevel_norm (macromain s3 nplasma)))).
  rewrite (bind_Ret _ _ s3 tt s4) by reflexivity.
  rewrite (bind_Ret _ _ s4 (macromain s4 nplasma) s4) by reflexivity.
  match goal with
  | |- context [forM ?lo ?hi ?body tt s4] =>
      destruct (forM_inv
                  (fun (_ : Z) (_ : unit) s' =>
                     forall i, i <> nion ->
                               Macro.superlevel_threshold (macromain s' nplasma) i
                               = Macro.superlevel_threshold (macromain s nplasma) i
                               /\ Macro.superlevel_norm (macromain s' nplasma) i
                                  = Macro.superlevel_norm (macromain s nplasma) i)
                  body lo hi tt s4)
        as ([] & s5 & E5 & H5)
  end.
  { intros n [] s0 _ H0. eexists tt, _. split; [reflexivity|].
    intros i Hi. cbn [macromain set_macro]. rewrite upd_same.
    cbn [Macro.superlevel_threshold Macro.superlevel_norm].
    rewrite upd_other by exact Hi. now apply H0. }
  { intros i Hi. subst s4. cbn [macromain set_macro]. rewrite upd_same.
    cbn [Macro.superlevel_threshold Macro.superlevel_norm].
    rewrite upd_other by exact Hi. rewrite Hmm3, Ht2, Hn2. split; reflexivity. }
  now exists s5.
Qed.

(** What a turn of [setup_superlevels] leaves for its own ion and cell
    and what it leaves alone, together. *)
Lemma setup_cell_turn G nion nplasma s :
  exists s',
    setup_cell G nion nplasma s = Ret tt s'
    /\ mem s' = mem s
    /\ (forall np, np <> nplasma -> macromain s' np = macromain s np)
    /\ (forall i, i <> nion ->
                  Macro.superlevel_threshold (macromain s' nplasma) i
                  = Macro.superlevel_threshold (macromain s nplasma) i
                  /\ Macro.superlevel_norm (macromain s' nplasma) i
                     = Macro.superlevel_norm (macromain s nplasma) i)
    /\ (Geo.wcycle (geo G) = 0 ->
        Macro.superlevel_threshold (macromain s' nplasma) nion
        = Ion.first_nlte_level (ion G nion) + Ion.nlte (ion G nion) - 1)
    /\ Macro.superlevel_norm (macromain s' nplasma) nion
       = (Macro.superlevel_norm (macromain s nplasma) nion
          + ladder_sum G (macromain s' nplasma)
              (Macro.superlevel_threshold (macromain s' nplasma) nion)
              (Ion.first_nlte_level (ion G nion) + Ion.nlte (ion G nion)))%R.
Proof.
  destruct (setup_cell_spec G nion nplasma s)
    as (s' & E & Hm & Hf & _ & _ & _ & Hfirst & Hnorm).
  destruct (setup_cell_others G nion nplasma s) as (s'' & E' & Hothers).
  rewrite E in E'. injection E' as <-.
  exists s'. repeat split; try assumption; now apply Hothers.
Qed.

(** X13.  [setup_superlevels] returns 0 and only touches the superlevel
    tables it is meant to build: it writes no array of doubles, it leaves
    the tables of every cell outside [0, NPLASMA) as they were, and in the
    cells it visits it leaves the threshold and the norm of every ion that
    is outside [0, NIONS) or is not flagged [has_superlevel == 1]. *)
Theorem setup_superlevels_frame G s :
  exists s',
    setup_superlevels G s = Ret 0 s'
    /\ mem s' = mem s
    /\ (forall np, ~ 0 <= np < NPLASMA G -> macromain s' np = macromain s np)
    /\ (forall np i,
          ~ (0 <= i < NIONS G /\ Ion.has_superlevel (ion G i) = 1) ->
          Macro.superlevel_threshold (macromain s' np) i
          = Macro.superlevel_threshold (macromain s np) i
          /\ Macro.superlevel_norm (macromain s' np) i
             = Macro.superlevel_norm (macromain s np) i).
Proof.
  rewrite setup_superlevels_eq.
  set (I := fun (done : Z -> Prop) (s' : state) =>
              mem s' = mem s
              /\ (forall np, ~ 0 <= np < NPLASMA G -> macromain s' np = macromain s np)
              /\ (forall np i, ~ done i ->
                               Macro.superlevel_threshold (macromain s' np) i
                               = Macro.superlevel_threshold (macromain s np) i
                               /\ Macro.superlevel_norm (macromain s' np) i
                                  = Macro.superlevel_norm (macromain s np) i)).
  match goal with
  | |- context [bind (forM 0 ?hi ?body tt) _] =>
      destruct (forM_inv
                  (fun k (_ : unit) s' =>
                     I (fun i => 0 <= i < k /\ Ion.has_superlevel (ion G i) = 1) s')
                  body 0 hi tt s)
        as ([] & s' & E & Hm & Hcells & Hions)
  end.
  - intros nion [] s0 Hnion (Hm & Hcells & Hions).
    destruct (Z.eqb_spec (Ion.has_superlevel (ion G nion)) 1) as [Hsl|Hsl].
    + match goal with
      | |- context [forM 0 ?hi ?body tt s0] =>
          destruct (forM_inv
                      (fun (_ : Z) (_ : unit) s' =>
                         I (fun i => 0 <= i < nion + 1
                                     /\ Ion.has_superlevel (ion G i) = 1) s')
                      body 0 hi tt s0)
            as ([] & s1 & E1 & H1)
      end.
      * intros np [] s2 Hnp (Hm2 & Hcells2 & Hions2).
        destruct (setup_cell_turn G nion np s2) as (s3 & E3 & Hm3 & Hf3 & Ho3 & _).
        exists tt, s3. split; [exact E3|]. split; [congruence|]. split.
        -- intros np' Hnp'. rewrite Hf3 by lia. now apply Hcells2.
        -- intros np' i Hi. destruct (Z.eq_dec np' np) as [->|Hne].
           ++ destruct (Ho3 i) as [Ht Hn]; [intros ->; apply Hi; split; [lia|exact Hsl]|].
              rewrite Ht, Hn. now apply Hions2.
           ++ rewrite Hf3 by exact Hne. now apply Hions2.
      * split; [exact Hm|]. split; [exact Hcells|].
        intros np i Hi. apply Hions. intros [Hr Hs]. apply Hi. split; [lia|exact Hs].
      * now exists tt, s1.
    + exists tt, s0. split; [reflexivity|]. split; [exact Hm|]. split; [exact Hcells|].
      intros np i Hi. apply Hions. intros [Hr Hs]. apply Hi. split; [lia|exact Hs].
  - split; [reflexivity|]. split; [reflexivity|]. intros np i _. split; reflexivity.
  - rewrite (bind_Ret _ _ _ _ _ E). exists s'. split; [reflexivity|].
    split; [exact Hm|]. split; [exact Hcells|].
    intros np i Hi. apply Hions. intros [Hr Hs]. apply Hi. split; [lia|exact Hs].
Qed.

(** On the first cycle a turn of [setup_superlevels] stores the topmost
    level as the threshold and adds the weight of that level to the norm. *)
Lemma setup_cell_first_cycle G nion nplasma s :
  Geo.wcycle (geo G) = 0 ->
  2 <= Ion.nlte (ion G nion) ->
  exists s',
    setup_cell G nion nplasma s = Ret tt s'
    /\ Macro.superlevel_threshold (macromain s' nplasma) nion
       = Ion.first_nlte_level (ion G nion) + Ion.nlte (ion G nion) - 1
    /\ Macro.superlevel_norm (macromain s' nplasma) nion
       = (Macro.superlevel_norm (macromain s nplasma) nion
          + lte_pop G nion nplasma
              (Ion.first_nlte_level (ion G nion) + Ion.nlte (ion G nion) - 1)
            / Config.g (config G (Ion.first_nlte_level (ion G nion)
                                  + Ion.nlte (ion G nion) - 1)))%R.
Proof.
  intros Hw Hnlte.
  destruct (setup_cell_spec G nion nplasma s)
    as (s' & E & _ & _ & _ & Hpops & _ & Hfirst & Hnorm).
  specialize (Hfirst Hw).
  exists s'. split; [exact E|]. split; [exact Hfirst|].
  rewrite Hnorm, Hfirst. unfold ladder_sum.
  set (top := Ion.first_nlte_level (ion G nion) + Ion.nlte (ion G nion) - 1).
  replace (Ion.first_nlte_level (ion G nion) + Ion.nlte (ion G nion)) with (top + 1)
    by (subst top; lia).
  rewrite for_loop_snoc, for_loop_empty by lia.
  rewrite Hpops by (subst top; lia). lra.
Qed.

(** X14.  On the first cycle [setup_superlevels] gives every ion flagged
    [has_superlevel == 1] with at least two reduced levels, in every
    cell, a superlevel of one level: the stored threshold is the topmost
    level, and the norm has grown by the weight of that level alone,
    [lte_pop[top] / g_top], whatever the other ions and cells are. *)
Theorem setup_superlevels_on_first_cycle G s nion nplasma :
  Geo.wcycle (geo G) = 0 ->
  0 <= nion < NIONS G ->
  Ion.has_superlevel (ion G nion) = 1 ->
  2 <= Ion.nlte (ion G nion) ->
  0 <= nplasma < NPLASMA G ->
  exists s',
    setup_superlevels G s = Ret 0 s'
    /\ Macro.superlevel_threshold (macromain s' nplasma) nion
       = Ion.first_nlte_level (ion G nion) + Ion.nlte (ion G nion) - 1
    /\ Macro.superlevel_norm (macromain s' nplasma) nion
       = (Macro.superlevel_norm (macromain s nplasma) nion
          + lte_pop G nion nplasma
              (Ion.first_nlte_level (ion G nion) + Ion.nlte (ion G nion) - 1)
            / Config.g (config G (Ion.first_nlte_level (ion G nion)
                                  + Ion.nlte (ion G nion) - 1)))%R.
Proof.
  intros Hw Hnion Hsl Hnlte Hnp.
  rewrite setup_superlevels_eq.
  set (top := Ion.first_nlte_level (ion G nion) + Ion.nlte (ion G nion) - 1).
  set (Q := fun s' : state =>
              Macro.superlevel_norm (macromain s' nplasma) nion
              = Macro.superlevel_norm (macromain s nplasma) nion).
  set (P := fun s' : state =>
              Macro.superlevel_threshold (macromain s' nplasma) nion = top
              /\ Macro.superlevel_norm (macromain s' nplasma) nion
                 = (Macro.superlevel_norm (macromain s nplasma) nion
                    + lte_pop G nion nplasma top / Config.g (config G top))%R).
  assert (Hkeep : forall i c s0 s1,
             setup_cell G i c s0 = Ret tt s1 -> ~ (i = nion /\ c = nplasma) ->
             (Q s0 -> Q s1) /\ (P s0 -> P s1)).
  { intros i c s0 s1 E Hne.
    destruct (setup_cell_turn G i c s0) as (s1' & E' & _ & Hf & Ho & _).
    rewrite E in E'. injection E' as <-.
    assert (Hsame : Macro.superlevel_threshold (macromain s1 nplasma) nion
                    = Macro.superlevel_threshold (macromain s0 nplasma) nion
                    /\ Macro.superlevel_norm (macromain s1 nplasma) nion
                       = Macro.superlevel_norm (macromain s0 nplasma) nion).
    { destruct (Z.eq_dec c nplasma) as [->|Hc].
      - apply Ho. intros ->. now apply Hne.
      - rewrite Hf by congruence. split; reflexivity. }
    destruct Hsame as [Ht Hn]. unfold Q, P. rewrite Ht, Hn. split; auto. }
  match goal with
  | |- context [bind (forM 0 ?hi ?body tt) _] =>
      destruct (forM_inv
                  (fun k (_ : unit) s' => (k <= nion -> Q s') /\ (nion < k -> P s'))
                  body 0 hi tt s)
        as ([] & s' & E & _ & HP)
  end.
  - intros i [] s0 Hi [HQ0 HP0].
    destruct (Z.eqb_spec (Ion.has_superlevel (ion G i)) 1) as [Hsi|Hsi].
    + match goal with
      | |- context [forM 0 ?hi ?body tt s0] =>
          destruct (forM_inv
                      (fun c (_ : unit) s' =>
                         (i < nion -> Q s') /\ (nion < i -> P s')
                         /\ (i = nion -> (c <= nplasma -> Q s') /\ (nplasma < c -> P s')))
                      body 0 hi tt s0)
            as ([] & s1 & E1 & H1 & H2 & H3)
      end.
      * intros c [] s2 Hc (J1 & J2 & J3).
        destruct (setup_cell_turn G i c s2) as (s3 & E3 & _).
        exists tt, s3. split; [exact E3|].
        destruct (Z.eq_dec i nion) as [->|Hi'].
        -- split; [lia|]. split; [lia|]. intros _.
           destruct (J3 eq_refl) as [JQ JP].
           destruct (Z.eq_dec c nplasma) as [->|Hc'].
           ++ split; [lia|]. intros _.
              destruct (setup_cell_first_cycle G nion nplasma s2 Hw Hnlte)
                as (s3' & E3' & Ht & Hn).
              rewrite E3 in E3'. injection E3' as <-.
              unfold P. split; [exact Ht|]. rewrite Hn. now rewrite (JQ ltac:(lia)).
           ++ destruct (Hkeep nion c s2 s3 E3 ltac:(intros [_ ?]; contradiction))
                as [KQ KP].
              split; intros; [apply KQ, JQ | apply KP, JP]; lia.
        -- destruct (Hkeep i c s2 s3 E3 ltac:(intros [? _]; contradiction)) as [KQ KP].
           split; [intros; apply KQ, J1; lia|]. split; [intros; apply KP, J2; lia|].
           intros; contradiction.
      * split; [intros; apply HQ0; lia|]. split; [intros; apply HP0; lia|].
        intros ->. split; [intros; apply HQ0; lia | intros; lia].
      * exists tt, s1. split; [exact E1|]. split.
        -- intros Hle. apply H1. destruct (Z.eq_dec i nion); lia.
        -- intros Hlt. destruct (Z.eq_dec i nion) as [->|Hne].
           ++ apply (H3 eq_refl). lia.
           ++ apply H2. lia.
    + exists tt, s0. split; [reflexivity|]. split.
      * intros Hle. apply HQ0. lia.
      * intros Hlt. apply HP0. assert (i <> nion) by (intros ->; contradiction). lia.
  - split; [intros _; reflexivity | intros; lia].
  - rewrite (bind_Ret _ _ _ _ _ E). exists s'. split; [reflexivity|]. apply HP. lia.
Qed.

Lemma setup_superlevels_on_first_cycle_witness :
  exists s',
    setup_superlevels (demo_globals 0) demo_state = Ret 0 s'
    /\ Macro.superlevel_threshold (macromain s' 0) 0 = 0 + 3 - 1
    /\ Macro.superlevel_norm (macromain s' 0) 0
       = (Macro.superlevel_norm (macromain demo_state 0) 0%Z
          + lte_pop (demo_globals 0) 0 0 (0 + 3 - 1)
            / Config.g (config (demo_globals 0) (0 + 3 - 1)))%R.
Proof.
  apply (setup_superlevels_on_first_cycle (demo_globals 0) demo_state 0 0).
  - reflexivity.
  - cbn; lia.
  - reflexivity.
  - cbn; lia.
  - cbn; lia.
Defined.

(** ** More on partition functions and populations together *)

(** X15.  [partition_functions] assigns: the partition function it stores
    for an ion, and the populations it stores for an ion whose populations
    [levels] computes and whose entries of [levden] no later ion shares,
    do not depend on what the store held before the call.  Run from any
    two states, and so also a second time on its own result, it leaves the
    same values. *)
Theorem partition_functions_forgets_the_store G xplasma mode nion sa sb :
  0 <= mode <= 4 ->
  Plasma.partition xplasma <> Plasma.levden xplasma ->
  0 <= nion < nions G ->
  exists sa' sb',
    partition_functions G xplasma mode sa = Ret 0 sa'
    /\ partition_functions G xplasma mode sb = Ret 0 sb'
    /\ mem sa' (Plasma.partition xplasma) nion = mem sb' (Plasma.partition xplasma) nion
    /\ (levels_computes G nion = true ->
        (forall j, nion < j < nions G -> levels_computes G j = true ->
                   levden_disjoint G nion j) ->
        forall n, 0 <= n < Ion.nlte (ion G nion) ->
                  mem sa' (Plasma.levden xplasma) (Ion.first_levden (ion G nion) + n)
                  = mem sb' (Plasma.levden xplasma) (Ion.first_levden (ion G nion) + n)).
Proof.
  intros Hmode Hpl Hn.
  destruct (mode_selects_total xplasma mode Hmode) as (t & weight & Hsel).
  destruct (partition_functions_partition G xplasma mode t weight nion sa Hsel Hpl Hn)
    as (sa' & Ea & Hza).
  destruct (partition_functions_partition G xplasma mode t weight nion sb Hsel Hpl Hn)
    as (sb' & Eb & Hzb).
  exists sa', sb'. split; [exact Ea|]. split; [exact Eb|]. split; [congruence|].
  intros Hc Hdis n Hnn.
  destruct (partition_functions_levden G xplasma mode t weight nion sa Hsel Hpl Hn Hc Hdis)
    as (sa'' & Ea' & _ & Hga & Hra).
  rewrite Ea in Ea'. injection Ea' as <-.
  destruct (partition_functions_levden G xplasma mode t weight nion sb Hsel Hpl Hn Hc Hdis)
    as (sb'' & Eb' & _ & Hgb & Hrb).
  rewrite Eb in Eb'. injection Eb' as <-.
  destruct (Z.eq_dec n 0) as [->|Hne].
  - rewrite Z.add_0_r. congruence.
  - rewrite Hra, Hrb by lia. reflexivity.
Qed.

Lemma partition_functions_forgets_the_store_witness :
  exists sa' sb',
    partition_functions (demo_globals 0) demo_cell 2 demo_state = Ret 0 sa'
    /\ partition_functions (demo_globals 0) demo_cell 2 demo_state_live = Ret 0 sb'
    /\ mem sa' (Plasma.partition demo_cell) 1 = mem sb' (Plasma.partition demo_cell) 1
    /\ (levels_computes (demo_globals 0) 1 = true ->
        (forall j, 1 < j < nions (demo_globals 0) ->
                   levels_computes (demo_globals 0) j = true ->
                   levden_disjoint (demo_globals 0) 1 j) ->
        forall n, 0 <= n < Ion.nlte (ion (demo_globals 0) 1) ->
                  mem sa' (Plasma.levden demo_cell)
                    (Ion.first_levden (ion (demo_globals 0) 1) + n)
                  = mem sb' (Plasma.levden demo_cell)
                      (Ion.first_levden (ion (demo_globals 0) 1) + n)).
Proof.
  apply (partition_functions_forgets_the_store (demo_globals 0) demo_cell 2 1
           demo_state demo_state_live).
  - lia.
  - cbn; discriminate.
  - cbn; lia.
Defined.

(** X16.  An ion with at most one level in the ladder that its partition
    sum uses has that level's weight as its partition function, and an ion
    with no level at all has the weight that the ion itself carries: in
    every mode, at every temperature and for every dilution factor. *)
Theorem single_level_partition_function G xplasma mode nion s :
  0 <= mode <= 4 ->
  Plasma.partition xplasma <> Plasma.levden xplasma ->
  0 <= nion < nions G ->
  Ion.nlevels (ion G nion) <= 1 ->
  (Ion.nlevels (ion G nion) <= 0 -> Ion.nlte (ion G nion) <= 1) ->
  exists s',
    partition_functions G xplasma mode s = Ret 0 s'
    /\ mem s' (Plasma.partition xplasma) nion
       = (if Ion.nlevels (ion G nion) =? 1
          then Config.g (config G (Ion.firstlevel (ion G nion)))
          else if Ion.nlte (ion G nion) =? 1
               then Config.g (config G (Ion.first_nlte_level (ion G nion)))
               else Ion.g (ion G nion)).
Proof.
  intros Hmode Hpl Hn Hlev Hnlte.
  destruct (mode_selects_total xplasma mode Hmode) as (t & weight & Hsel).
  destruct (partition_functions_partition G xplasma mode t weight nion s Hsel Hpl Hn)
    as (s' & E & Hz).
  exists s'. split; [exact E|]. rewrite Hz. unfold partition_value.
  destruct (Z.gtb_spec (Ion.nlevels (ion G nion)) 0) as [H|H].
  - assert (Ion.nlevels (ion G nion) = 1) as -> by lia.
    now rewrite for_loop_empty by lia.
  - replace (Ion.nlevels (ion G nion) =? 1) with false by (symmetry; apply Z.eqb_neq; lia).
    destruct (Z.gtb_spec (Ion.nlte (ion G nion)) 0) as [H'|H'].
    + assert (Ion.nlte (ion G nion) = 1) as -> by lia.
      now rewrite for_loop_empty by lia.
    + now replace (Ion.nlte (ion G nion) =? 1) with false
        by (symmetry; apply Z.eqb_neq; lia).
Qed.

Lemma single_level_partition_function_witness :
  exists s',
    partition_functions (demo_globals 0) demo_cell 0 demo_state = Ret 0 s'
    /\ mem s' (Plasma.partition demo_cell) 1
       = (if Ion.nlevels (ion (demo_globals 0) 1) =? 1
          then Config.g (config (demo_globals 0) (Ion.firstlevel (ion (demo_globals 0) 1)))
          else if Ion.nlte (ion (demo_globals 0) 1) =? 1
               then Config.g (config (demo_globals 0)
                                (Ion.first_nlte_level (ion (demo_globals 0) 1)))
               else Ion.g (ion (demo_globals 0) 1)).
Proof.
  apply (single_level_partition_function (demo_globals 0) demo_cell 0 1 demo_state).
  - lia.
  - cbn; discriminate.
  - cbn; lia.
  - cbn; lia.
  - intros _. cbn; lia.
Defined.
